(** * SecureDrop reachability monitor: [SDMonitor.check_instances]

    A shallow embedding of [reachability-monitor.py].  The instance records
    are Python dicts and are modelled as finite maps from field names to
    values; the list of records is mutated in place and is kept in the
    program state, so that what an aborted run leaves behind stays visible.
    The SOCKS opener and the Tor controller are outside the program: they
    are an interface whose replies the development quantifies over. *)

From Stdlib Require Import Ascii String.
From stdpp Require Import gmap strings list.

Local Open Scope string_scope.
Local Open Scope list_scope.

(** ** Text: the version pattern and [str.split]

    A response is a sequence of characters.  The pattern and the split only
    tell apart the digits, the full stop, the white space and the letters of
    the literal, all below 256; any other character is just a character that
    is none of these. *)

Module Text.

(** The character class [[0-9.]] of the pattern. *)
Definition is_digit (a : ascii) : bool :=
  let n := nat_of_ascii a in (48 <=? n)%nat && (n <=? 57)%nat.

Definition in_class (a : ascii) : bool :=
  is_digit a || Ascii.eqb a ".".

(** [str.isspace] on the code points below 256. *)
Definition is_space (a : ascii) : bool :=
  let n := nat_of_ascii a in
  ((9 <=? n)%nat && (n <=? 13)%nat) || ((28 <=? n)%nat && (n <=? 32)%nat)
  || (n =? 133)%nat || (n =? 160)%nat.

(** The literal part of ["Powered by SecureDrop [0-9.]+"]. *)
Definition banner : string := "Powered by SecureDrop ".

Fixpoint strip_prefix (p s : string) : option string :=
  match p, s with
  | EmptyString, _ => Some s
  | String a p', String b s' =>
      if Ascii.eqb a b then strip_prefix p' s' else None
  | String _ _, EmptyString => None
  end.

(** Greedy [[0-9.]*]: the longest prefix made of class characters. *)
Fixpoint take_class (s : string) : string :=
  match s with
  | String a s' => if in_class a then String a (take_class s') else EmptyString
  | EmptyString => EmptyString
  end.

(** The pattern anchored at the start of [s]; the result is [group(0)]. *)
Definition match_here (s : string) : option string :=
  match strip_prefix banner s with
  | Some rest =>
      match take_class rest with
      | EmptyString => None
      | run => Some (banner +:+ run)
      end
  | None => None
  end.

(** [re.search]: the match at the leftmost position where there is one. *)
Fixpoint search (s : string) : option string :=
  match match_here s with
  | Some m => Some m
  | None =>
      match s with
      | String _ s' => search s'
      | EmptyString => None
      end
  end.

(** The pattern matches at no position inside [pre] when [pre] is followed
    by [rest]. *)
Fixpoint no_match_before (pre rest : string) : bool :=
  match pre with
  | EmptyString => true
  | String _ pre' =>
      match match_here (pre +:+ rest) with
      | Some _ => false
      | None => no_match_before pre' rest
      end
  end.

(** [str.split()] without a separator: maximal runs of non-space
    characters.  [cur] is the token being read. *)
Fixpoint split_from (cur : string) (s : string) : list string :=
  match s with
  | EmptyString =>
      match cur with EmptyString => [] | _ => [cur] end
  | String a s' =>
      if is_space a
      then match cur with
           | EmptyString => split_from EmptyString s'
           | _ => cur :: split_from EmptyString s'
           end
      else split_from (cur +:+ String a EmptyString) s'
  end.

Definition split (s : string) : list string := split_from EmptyString s.

(** The slice [s[:-1]]. *)
Fixpoint drop_last (s : string) : string :=
  match s with
  | EmptyString => EmptyString
  | String _ EmptyString => EmptyString
  | String a s' => String a (drop_last s')
  end.

Fixpoint all_class (s : string) : bool :=
  match s with
  | EmptyString => true
  | String a s' => in_class a && all_class s'
  end.

(** The next character, if any, is outside the class: where a greedy run
    stops. *)
Definition stops_run (s : string) : bool :=
  match s with
  | EmptyString => true
  | String a _ => negb (in_class a)
  end.

End Text.

(** ** Data *)

(** What Python raises.  A subclass is represented by the class it is caught
    as; [OtherError] is any class that neither handler names. *)
Inductive exn :=
  | SOCKS5Error
  | GeneralProxyError
  | URLError
  | DescriptorUnavailable
  | AttributeError
  | TypeError
  | IndexError
  | KeyError
  | OtherError (name : string).

Inductive result (A : Type) :=
  | Ok (a : A)
  | Raised (e : exn).
Arguments Ok {A} a.
Arguments Raised {A} e.

(** A circuit as [get_circuits] reports it (stem's [CircuitEvent]); a field
    the daemon leaves out is [None]. *)
Record circuit := Circuit {
  circ_id : string;
  purpose : option string;
  path : list (string * option string);
  hs_state : option string;
  reason : option string;
  remote_reason : option string;
}.

(** The values held by a snapshot dict. *)
Inductive field :=
  | FPath (p : list (string * option string))
  | FText (t : option string).

(** The values held by an instance dict: the strings of the directory and of
    the result fields, and the two lists of snapshot dicts. *)
Inductive value :=
  | VStr (s : string)
  | VCircs (l : list (gmap string field)).

Abbreviation snapshot := (gmap string field).
Abbreviation instance := (gmap string value).

(** One entry of the execution history: every call that leaves the program
    with the reply it got, every [instance[key] = v], every [print]. *)
Inductive event :=
  | EvOpen (url : string) (timeout : nat) (reply : result string)
  | EvGetDescriptor (address : string) (reply : result string)
  | EvGetCircuits (reply : result (list circuit))
  | EvCloseCircuit (id : string) (reply : result unit)
  | EvSet (index : nat) (key : string) (v : value)
  | EvPrint (record : instance).

(** The two external services, over any state [W] of the outside world.
    [open_url] is [opener.open(url, timeout=timeout).read().decode()];
    [get_hidden_service_descriptor] is the controller call followed by
    [.introduction_points_content.decode()]. *)
Class Backend (W : Type) := {
  open_url : string -> nat -> W -> result string * W;
  get_hidden_service_descriptor : string -> W -> result string * W;
  get_circuits : W -> result (list circuit) * W;
  close_circuit : string -> W -> result unit * W;
}.

(** ** The program *)

Section Monitor.
Context {W : Type} `{Backend W}.

Record state := State {
  world : W;
  instances : list instance;
  trace : list event;
}.

(** State survives an exception: the records mutated so far stay mutated. *)
Definition M (A : Type) : Type := state -> result A * state.

Definition ret {A} (a : A) : M A := fun s => (Ok a, s).

Definition raise {A} (e : exn) : M A := fun s => (Raised e, s).

Definition bind {A B} (m : M A) (k : A -> M B) : M B :=
  fun s =>
    match m s with
    | (Ok a, s') => k a s'
    | (Raised e, s') => (Raised e, s')
    end.

(** [try: m except <classes>: h]. *)
Definition try_except {A} (m : M A) (classes : exn -> bool) (h : M A) : M A :=
  fun s =>
    match m s with
    | (Ok a, s') => (Ok a, s')
    | (Raised e, s') => if classes e then h s' else (Raised e, s')
    end.

Local Notation "x <- m ;; k" := (bind m (fun x => k))
  (at level 100, m at next level, k at level 200, right associativity).
Local Notation "m ;;; k" := (bind m (fun _ => k))
  (at level 100, k at level 200, right associativity).

Definition log (e : event) (s : state) : state :=
  State (world s) (instances s) (trace s ++ [e]).

(** The loop variable [instance]: the record at position [i] of the list. *)
Definition get_instance (i : nat) : M instance :=
  fun s =>
    match instances s !! i with
    | Some inst => (Ok inst, s)
    | None => (Raised IndexError, s)
    end.

(** [instance[key] = v]. *)
Definition setitem (i : nat) (key : string) (v : value) : M unit :=
  fun s =>
    (Ok tt,
     State (world s) (alter (insert key v) i (instances s))
           (trace s ++ [EvSet i key v])).

(** [print(instance)]. *)
Definition print (i : nat) : M unit :=
  inst <- get_instance i ;;
  fun s => (Ok tt, log (EvPrint inst) s).

Definition call_open (url : string) (timeout : nat) : M string :=
  fun s =>
    let '(r, w) := open_url url timeout (world s) in
    (r, State w (instances s) (trace s ++ [EvOpen url timeout r])).

Definition call_get_descriptor (address : string) : M string :=
  fun s =>
    let '(r, w) := get_hidden_service_descriptor address (world s) in
    (r, State w (instances s) (trace s ++ [EvGetDescriptor address r])).

Definition call_get_circuits : M (list circuit) :=
  fun s =>
    let '(r, w) := get_circuits (world s) in
    (r, State w (instances s) (trace s ++ [EvGetCircuits r])).

Definition call_close_circuit (id : string) : M unit :=
  fun s =>
    let '(r, w) := close_circuit id (world s) in
    (r, State w (instances s) (trace s ++ [EvCloseCircuit id r])).

(** A string operand; anything else ([None] from [dict.get] included)
    makes the concatenation raise. *)
Definition as_str (v : option value) : M string :=
  match v with
  | Some (VStr a) => ret a
  | _ => raise TypeError
  end.

Definition unreachable : value := VStr "unreachable".
Definition descriptor_unavailable : value := VStr "descriptor unavailable".

(** Lines 68-72, the body of the outer [try]. *)
Definition probe (i : nat) (hs_url : option value) (timeout : nat) : M unit :=
  address <- as_str hs_url ;;
  response <- call_open ("http://" +:+ address) timeout ;;
  version_str <- match Text.search response with
                 | Some m => ret m
                 | None => raise AttributeError
                 end ;;
  token <- match last (Text.split version_str) with
           | Some t => ret t
           | None => raise IndexError
           end ;;
  setitem i "version" (VStr (Text.drop_last token)).

(** [except (socks.SOCKS5Error, socks.GeneralProxyError,
    urllib.error.URLError)]. *)
Definition proxy_failure (e : exn) : bool :=
  match e with
  | SOCKS5Error | GeneralProxyError | URLError => true
  | _ => false
  end.

Definition descriptor_failure (e : exn) : bool :=
  match e with
  | DescriptorUnavailable => true
  | _ => false
  end.

(** How the [try] statement is left: towards the circuit collection, or
    through [continue]. *)
Inductive flow := Next | Continue.

(** Lines 75-90, the outer handler. *)
Definition diagnose (i : nat) (hs_url : option value) : M flow :=
  setitem i "version" unreachable ;;;
  try_except
    (address <- as_str hs_url ;;
     content <- call_get_descriptor address ;;
     setitem i "intro_pts" (VStr content) ;;;
     ret Next)
    descriptor_failure
    (setitem i "intro_pts" descriptor_unavailable ;;;
     print i ;;;
     ret Continue).

Definition intro_snapshot (c : circuit) : snapshot :=
  {[ "path" := FPath (path c);
     "reason" := FText (reason c);
     "remote_reason" := FText (remote_reason c) ]}.

Definition rend_snapshot (c : circuit) : snapshot :=
  {[ "path" := FPath (path c);
     "state" := FText (hs_state c);
     "reason" := FText (reason c);
     "remote_reason" := FText (remote_reason c) ]}.

Definition has_purpose (p : string) (c : circuit) : bool :=
  match purpose c with
  | Some q => String.eqb q p
  | None => false
  end.

(** Lines 96-105, one turn of the loop over the circuits. *)
Definition inspect (c : circuit) (acc : list snapshot * list snapshot)
  : M (list snapshot * list snapshot) :=
  let intro_circs :=
    if has_purpose "HS_CLIENT_INTRO" c then acc.1 ++ [intro_snapshot c] else acc.1 in
  let rend_circs :=
    if has_purpose "HS_CLIENT_REND" c then acc.2 ++ [rend_snapshot c] else acc.2 in
  call_close_circuit (circ_id c) ;;;
  ret (intro_circs, rend_circs).

Fixpoint collect (cs : list circuit) (acc : list snapshot * list snapshot)
  : M (list snapshot * list snapshot) :=
  match cs with
  | [] => ret acc
  | c :: cs' => acc' <- inspect c acc ;; collect cs' acc'
  end.

Definition is_unreachable (v : value) : bool :=
  match v with
  | VStr s => String.eqb s "unreachable"
  | VCircs _ => false
  end.

(** Lines 92-111. *)
Definition collect_circuits (i : nat) : M unit :=
  circuits <- call_get_circuits ;;
  acc <- collect circuits ([], []) ;;
  setitem i "intro_circs" (VCircs acc.1) ;;;
  setitem i "rend_circs" (VCircs acc.2) ;;;
  inst <- get_instance i ;;
  match inst !! "version" with
  | Some v => if is_unreachable v then print i else ret tt
  | None => raise KeyError
  end.

(** The body of [for instance in instances], for the record at [i]. *)
Definition check_instance (timeout : nat) (i : nat) : M unit :=
  inst <- get_instance i ;;
  let hs_url := inst !! "ths_address" in
  fl <- try_except (probe i hs_url timeout ;;; ret Next)
                   proxy_failure
                   (diagnose i hs_url) ;;
  match fl with
  | Continue => ret tt
  | Next => collect_circuits i
  end.

Fixpoint for_each (body : nat -> M unit) (indices : list nat) : M unit :=
  match indices with
  | [] => ret tt
  | i :: rest => body i ;;; for_each body rest
  end.

Definition check_instances (timeout : nat) : M (list instance) :=
  fun s =>
    (for_each (check_instance timeout) (seq 0 (length (instances s))) ;;;
     fun s' => (Ok (instances s'), s')) s.

End Monitor.

Arguments state W : clear implicits.
Arguments M W A : clear implicits.

(** ** A scripted outside world

    The replies the services will give, in the order the calls are made; a
    call the script did not expect fails. *)

Inductive reply :=
  | ROpen (r : result string)
  | RDescriptor (r : result string)
  | RCircuits (r : result (list circuit))
  | RClose (r : result unit).

Definition off_script {A} (w : list reply) : result A * list reply :=
  (Raised (OtherError "off script"), w).

#[export] Instance script_backend : Backend (list reply) := {
  open_url _ _ w :=
    match w with ROpen r :: w' => (r, w') | _ => off_script w end;
  get_hidden_service_descriptor _ w :=
    match w with RDescriptor r :: w' => (r, w') | _ => off_script w end;
  get_circuits w :=
    match w with RCircuits r :: w' => (r, w') | _ => off_script w end;
  close_circuit _ w :=
    match w with RClose r :: w' => (r, w') | _ => off_script w end;
}.

(** A record as [read_directory] builds it. *)
Definition directory_entry (organization landing_page ths_address : string)
  : instance :=
  {[ "organization" := VStr organization;
     "landing_page" := VStr landing_page;
     "ths_address" := VStr ths_address ]}.

Definition start (w : list reply) (l : list instance) : state (list reply) :=
  State w l [].

(** ** Vocabulary of the statements *)

(** The fields [check_instances] writes. *)
Definition result_keys : list string :=
  ["version"; "intro_pts"; "intro_circs"; "rend_circs"].

(** The field [k] of the record at position [i]. *)
Definition field_at (l : list instance) (i : nat) (k : string) : option value :=
  l !! i ≫= (.!! k).

(** The history holds a descriptor fetch for [address] that failed with
    [DescriptorUnavailable]. *)
Definition fetch_unavailable (tr : list event) (address : string) : bool :=
  existsb (fun ev =>
             match ev with
             | EvGetDescriptor a (Raised DescriptorUnavailable) => String.eqb a address
             | _ => false
             end) tr.

(** *** Scenarios *)

Definition example_entry : instance :=
  directory_entry "Example Press" "https://press.example/tips" "examplepress.onion".

Definition other_entry : instance :=
  directory_entry "Other Desk" "https://desk.example/securedrop" "otherdesk.onion".

Definition intro_circuit : circuit :=
  Circuit "7" (Some "HS_CLIENT_INTRO")
    [("A1B2", Some "relay1"); ("C3D4", Some "relay2")]
    (Some "HSCI_CONNECTING") (Some "TIMEOUT") None.

Definition rend_circuit : circuit :=
  Circuit "8" (Some "HS_CLIENT_REND") [("E5F6", Some "relay3")]
    (Some "HSCR_CONNECTING") None (Some "DESTROYED").

Definition general_circuit : circuit :=
  Circuit "9" (Some "GENERAL") [("0A0B", None)] None None None.

(** The probe fails at the proxy, the descriptor is delivered, no circuit is
    live. *)
Definition diagnosed_run : state (list reply) :=
  start [ROpen (Raised SOCKS5Error); RDescriptor (Ok "intro-point ab12");
         RCircuits (Ok [])]
        [example_entry].

(** The probe fails at the proxy and there is no descriptor. *)
Definition unavailable_run : state (list reply) :=
  start [ROpen (Raised SOCKS5Error); RDescriptor (Raised DescriptorUnavailable)]
        [example_entry].

(** The probe is answered with [body]; no circuit is live. *)
Definition answered_run (body : string) : state (list reply) :=
  start [ROpen (Ok body); RCircuits (Ok [])] [example_entry].

(** Three circuits are live when the circuits are collected. *)
Definition circuits_run : state (list reply) :=
  start [RCircuits (Ok [intro_circuit; general_circuit; rend_circuit]);
         RClose (Ok tt); RClose (Ok tt); RClose (Ok tt)]
        [<["version" := VStr "2.5.0"]> example_entry].

(** The first record is answered with a version, the second with a page
    that lacks the pattern. *)
Definition malformed_run : state (list reply) :=
  start [ROpen (Ok "<p>Powered by SecureDrop 2.5.0.</p>"); RCircuits (Ok []);
         ROpen (Ok "<html>502 Bad Gateway</html>")]
        [example_entry; other_entry].

Definition close_events (cs : list circuit) : list event :=
  map (fun c => EvCloseCircuit (circ_id c) (Ok tt)) cs.

Section Vocabulary.
Context {W : Type} `{Backend W}.

(** What a step working on record [i] and writing only the keys [K] may
    change: nothing in the other records, nothing under the other keys,
    no field removed, the history only extended. *)
Definition frame (i : nat) (K : list string) (s s' : state W) : Prop :=
  length (instances s') = length (instances s)
  /\ (forall j, j <> i -> instances s' !! j = instances s !! j)
  /\ (forall k, k ∉ K ->
        field_at (instances s') i k = field_at (instances s) i k)
  /\ (forall k, is_Some (field_at (instances s) i k) ->
        is_Some (field_at (instances s') i k))
  /\ (exists tl, trace s' = trace s ++ tl).

(** The same for a run over several records. *)
Definition frame_all (K : list string) (s s' : state W) : Prop :=
  length (instances s') = length (instances s)
  /\ (forall j k, k ∉ K ->
        field_at (instances s') j k = field_at (instances s) j k)
  /\ (forall j k, is_Some (field_at (instances s) j k) ->
        is_Some (field_at (instances s') j k))
  /\ (exists tl, trace s' = trace s ++ tl).

Definition preserves {A} (R : state W -> state W -> Prop) (m : M W A) : Prop :=
  forall s, R s (m s).2.

(** The world after [close_circuit] has been called on each circuit of
    [cs] in turn, when none of the calls fails. *)
Fixpoint close_all (cs : list circuit) (w : W) : option W :=
  match cs with
  | [] => Some w
  | c :: cs' =>
      match close_circuit (circ_id c) w with
      | (Ok _, w') => close_all cs' w'
      | (Raised _, _) => None
      end
  end.

(** The controller answers the circuit collection without failing. *)
Definition collection_succeeds (w : W) : Prop :=
  match get_circuits w with
  | (Ok cs, w') => is_Some (close_all cs w')
  | (Raised _, _) => False
  end.

(** The controller answers the diagnosis of [address] without failing:
    the descriptor is unavailable, or it is delivered and the circuit
    collection goes through. *)
Definition diagnosis_succeeds (address : string) (w : W) : Prop :=
  match get_hidden_service_descriptor address w with
  | (Ok _, w') => collection_succeeds w'
  | (Raised DescriptorUnavailable, _) => True
  | (Raised _, _) => False
  end.

End Vocabulary.

(** ** The directory: [str.splitlines], [str.split(sep)], slices *)

Module Lines.

(** The directory text is held as the bytes of its UTF-8 encoding.  The line
    boundaries of [str.splitlines] are LF, VT, FF, CR, FS, GS and RS, of one
    byte each, NEL (U+0085, bytes 194 133), LS (U+2028, bytes 226 128 168)
    and PS (U+2029, bytes 226 128 169).  In an encoded text a byte below
    128 is a character of its own, and 194 and 226 only stand at the start
    of a character, so that a boundary is found where these bytes are. *)

(** The boundaries of one byte. *)
Definition is_break (a : ascii) : bool :=
  let n := nat_of_ascii a in
  ((10 <=? n)%nat && (n <=? 13)%nat) || ((28 <=? n)%nat && (n <=? 30)%nat).

Definition cr : ascii := "013".
Definition lf : ascii := "010".

(** The number of bytes of the boundary [s] starts with, 0 when it starts
    with none; CR LF counts as one boundary. *)
Definition boundary (s : string) : nat :=
  match s with
  | EmptyString => 0
  | String a s1 =>
      if Ascii.eqb a cr then
        match s1 with
        | String b _ => if Ascii.eqb b lf then 2 else 1
        | EmptyString => 1
        end
      else if is_break a then 1
      else if Ascii.eqb a "194" then
        match s1 with
        | String b _ => if Ascii.eqb b "133" then 2 else 0
        | EmptyString => 0
        end
      else if Ascii.eqb a "226" then
        match s1 with
        | String b (String c _) =>
            if Ascii.eqb b "128" && (Ascii.eqb c "168" || Ascii.eqb c "169")
            then 3 else 0
        | _ => 0
        end
      else 0
  end.

(** [str.splitlines()]: a boundary ends the line being read, and no empty
    line follows a final boundary.  [cur] is the line being read, [skip]
    the number of bytes left of the boundary being passed. *)
Fixpoint splitlines_from (skip : nat) (cur : string) (s : string) : list string :=
  match s with
  | EmptyString =>
      match cur with EmptyString => [] | _ => [cur] end
  | String a s' =>
      match skip with
      | S k => splitlines_from k cur s'
      | O =>
          match boundary s with
          | O => splitlines_from 0 (cur +:+ String a EmptyString) s'
          | S k => cur :: splitlines_from k EmptyString s'
          end
      end
  end.

Definition splitlines (s : string) : list string :=
  splitlines_from 0 EmptyString s.

(** [str.split(sep)] for a separator of one character: empty fields are
    kept, and there is always at least one field. *)
Fixpoint split_on (sep : ascii) (cur : string) (s : string) : list string :=
  match s with
  | EmptyString => [cur]
  | String a s' =>
      if Ascii.eqb a sep
      then cur :: split_on sep EmptyString s'
      else split_on sep (cur +:+ String a EmptyString) s'
  end.

(** A slice bound: a negative index counts from the end, and the result is
    kept within [0, n]. *)
Definition clamp (n : nat) (k : Z) : nat :=
  if (k <? 0)%Z then Z.to_nat (k + Z.of_nat n) else Nat.min n (Z.to_nat k).

(** The slice [l[start:stop]]. *)
Definition slice {A} (l : list A) (start stop : Z) : list A :=
  let i := clamp (length l) start in
  let j := clamp (length l) stop in
  take (j - i) (drop i l).

End Lines.

(** ** [read_directory], the part after the download *)

Definition tab : ascii := "009".

(** [dict(organization=fields[0], landing_page=fields[1],
    ths_address=fields[2])] for one line. *)
Definition entry_of_line (line : string) : result instance :=
  let fields := Lines.split_on tab EmptyString line in
  match fields !! 0%nat with
  | None => Raised IndexError
  | Some organization =>
      match fields !! 1%nat with
      | None => Raised IndexError
      | Some landing_page =>
          match fields !! 2%nat with
          | None => Raised IndexError
          | Some ths_address =>
              Ok (directory_entry organization landing_page ths_address)
          end
      end
  end.

(** The loop of lines 48-52, appending to [instances]. *)
Fixpoint append_entries (lines : list string) (instances : list instance)
  : result (list instance) :=
  match lines with
  | [] => Ok instances
  | line :: rest =>
      match entry_of_line line with
      | Ok entry => append_entries rest (instances ++ [entry])
      | Raised e => Raised e
      end
  end.

Definition parse_directory (directory : string) : result (list instance) :=
  append_entries (Lines.slice (Lines.splitlines directory) 1 (-1)) [].

(** ** The session: [SDMonitor] as a context manager, and the main block *)

Definition directory_url : string :=
  "https://securedrop.org/sites/securedrop.org/files/securedrop_list.txt".

Definition user_agent : string :=
  "Mozilla/5.0 (Windows NT 6.1; rv:45.0) Gecko/20100101 Firefox/45.0".

(** What the main block does outside [check_instances], with the reply it
    got; [ACheck] holds an entry of the history of [check_instances]. *)
Inductive action :=
  | ABasicConfig (logfile : string) (reply : result unit)
  | AFromPort (reply : result unit)
  | AAuthenticate (reply : result unit)
  | AGetVersion (reply : result string)
  | AClose (reply : result unit)
  | AUrlopen (url agent : string) (reply : result string)
  | ACheck (ev : event)
  | ADump (results_file : string) (data : list instance) (reply : result unit).

(** The services the main block uses besides those of [check_instances].
    [urlopen_read] is [urlopen(request).read().decode()] for a request with
    the given [User-Agent]; [dump] is opening the results file for writing
    and [json.dump] into it; [basic_config] is [logging.basicConfig] with
    the log file. *)
Class Host (W : Type) := {
  basic_config : string -> W -> result unit * W;
  from_port : W -> result unit * W;
  authenticate : W -> result unit * W;
  get_version : W -> result string * W;
  controller_close : W -> result unit * W;
  urlopen_read : string -> string -> W -> result string * W;
  dump : string -> list instance -> W -> result unit * W;
}.

Section Session.
Context {W : Type} `{Backend W} `{Host W}.

Record session := Session {
  host : W;
  journal : list action;
}.

Definition Job (A : Type) : Type := session -> result A * session.

Definition sret {A} (a : A) : Job A := fun ss => (Ok a, ss).

Definition sraise {A} (e : exn) : Job A := fun ss => (Raised e, ss).

Definition sbind {A B} (m : Job A) (k : A -> Job B) : Job B :=
  fun ss =>
    match m ss with
    | (Ok a, ss') => k a ss'
    | (Raised e, ss') => (Raised e, ss')
    end.

Local Notation "x <- m ;; k" := (sbind m (fun x => k))
  (at level 100, m at next level, k at level 200, right associativity).
Local Notation "m ;;; k" := (sbind m (fun _ => k))
  (at level 100, k at level 200, right associativity).

(** A call to the host, entered in the journal with its reply. *)
Definition call {A} (op : W -> result A * W) (entry : result A -> action) : Job A :=
  fun ss =>
    let '(r, w) := op (host ss) in
    (r, Session w (journal ss ++ [entry r])).

(** [SDMonitor.__init__]. *)
Definition sd_init : Job unit :=
  call from_port AFromPort ;;;
  call authenticate AAuthenticate ;;;
  call get_version AGetVersion ;;;
  sret tt.

(** [SDMonitor.__exit__]: it returns [None], so an exception of the body is
    raised again once the controller is closed. *)
Definition sd_exit : Job unit := call controller_close AClose.

(** [with SDMonitor() as sdmonitor: body]. *)
Definition with_monitor {A} (body : Job A) : Job A :=
  sd_init ;;;
  fun ss =>
    let '(r, ss1) := body ss in
    match sd_exit ss1 with
    | (Ok _, ss2) => (r, ss2)
    | (Raised e, ss2) => (Raised e, ss2)
    end.

(** [SDMonitor.read_directory]. *)
Definition read_directory (url : string) : Job (list instance) :=
  directory <- call (urlopen_read url user_agent) (AUrlopen url user_agent) ;;
  match parse_directory directory with
  | Ok instances => sret instances
  | Raised e => sraise e
  end.

(** [sdmonitor.check_instances(instances)] from the main block: its history
    goes to the journal. *)
Definition run_check (timeout : nat) (l : list instance) : Job (list instance) :=
  fun ss =>
    let '(r, st) := check_instances timeout (State (host ss) l []) in
    (r, Session (world st) (journal ss ++ map ACheck (trace st))).

(** The main block; [stamp] is the formatted time of the start. *)
Definition main (stamp : string) : Job unit :=
  call (basic_config ("sdrm_" +:+ stamp +:+ ".log"))
       (ABasicConfig ("sdrm_" +:+ stamp +:+ ".log")) ;;;
  instances <- with_monitor
                 (instances <- read_directory directory_url ;;
                  run_check 30 instances) ;;
  call (dump ("results_" +:+ stamp +:+ ".json") instances)
       (ADump ("results_" +:+ stamp +:+ ".json") instances).

End Session.

Arguments session W : clear implicits.
Arguments Job W A : clear implicits.

(** *** A scripted host *)

Inductive host_reply :=
  | HService (r : reply)
  | HUnit (r : result unit)
  | HText (r : result string).

Definition off_host {A} (w : list host_reply) : result A * list host_reply :=
  (Raised (OtherError "off script"), w).

#[export] Instance host_script_backend : Backend (list host_reply) := {
  open_url _ _ w :=
    match w with HService (ROpen r) :: w' => (r, w') | _ => off_host w end;
  get_hidden_service_descriptor _ w :=
    match w with HService (RDescriptor r) :: w' => (r, w') | _ => off_host w end;
  get_circuits w :=
    match w with HService (RCircuits r) :: w' => (r, w') | _ => off_host w end;
  close_circuit _ w :=
    match w with HService (RClose r) :: w' => (r, w') | _ => off_host w end;
}.

Definition host_unit (w : list host_reply) : result unit * list host_reply :=
  match w with HUnit r :: w' => (r, w') | _ => off_host w end.

Definition host_text (w : list host_reply) : result string * list host_reply :=
  match w with HText r :: w' => (r, w') | _ => off_host w end.

#[export] Instance host_script : Host (list host_reply) := {
  basic_config _ := host_unit;
  from_port := host_unit;
  authenticate := host_unit;
  get_version := host_text;
  controller_close := host_unit;
  urlopen_read _ _ := host_text;
  dump _ _ := host_unit;
}.

(** ** Vocabulary for the directory text *)

Fixpoint count_char (c : ascii) (s : string) : nat :=
  match s with
  | EmptyString => 0
  | String a s' => (if Ascii.eqb a c then 1 else 0) + count_char c s'
  end.

(** No line boundary inside. *)
Fixpoint break_free (s : string) : bool :=
  match s with
  | EmptyString => true
  | String _ s' => (Lines.boundary s =? 0)%nat && break_free s'
  end.

(** Neither a line boundary nor a tab inside: the text of one field. *)
Definition plain (s : string) : bool :=
  break_free s && (count_char tab s =? 0)%nat.

(** The lines, each followed by [eol]. *)
Fixpoint join_lines (eol : string) (lines : list string) : string :=
  match lines with
  | [] => EmptyString
  | line :: rest => line +:+ eol +:+ join_lines eol rest
  end.

(** A directory line for three fields. *)
Definition row_line (row : string * string * string) : string :=
  row.1.1 +:+ String tab (row.1.2 +:+ String tab row.2).

Definition row_entry (row : string * string * string) : instance :=
  directory_entry row.1.1 row.1.2 row.2.

Definition plain_row (row : string * string * string) : bool :=
  plain row.1.1 && plain row.1.2 && plain row.2.

(** ** Vocabulary for the history of a run *)

(** The records printed, in order. *)
Definition printed (tr : list event) : list instance :=
  omap (fun ev => match ev with EvPrint record => Some record | _ => None end) tr.

(** The probes made, in order: URL and timeout. *)
Definition probes (tr : list event) : list (string * nat) :=
  omap (fun ev => match ev with EvOpen url t _ => Some (url, t) | _ => None end) tr.

(** The probe a record asks for. *)
Definition probe_of (timeout : nat) (inst : instance) : option (string * nat) :=
  match inst !! "ths_address" with
  | Some (VStr address) => Some ("http://" +:+ address, timeout)
  | _ => None
  end.

Definition is_unreachable_record (inst : instance) : bool :=
  match inst !! "version" with
  | Some v => is_unreachable v
  | None => false
  end.

(** The circuits [close_circuit] was called on, in order. *)
Definition close_calls (tr : list event) : list string :=
  omap (fun ev => match ev with EvCloseCircuit id _ => Some id | _ => None end) tr.

(** Neither a probe nor a descriptor fetch. *)
Definition no_fetch (ev : event) : bool :=
  match ev with
  | EvOpen _ _ _ | EvGetDescriptor _ _ => false
  | _ => true
  end.

(** The step only adds entries satisfying [p] to the history. *)
Definition adds {W : Type} (p : event -> bool) (s s' : state W) : Prop :=
  exists tl, trace s' = trace s ++ tl /\ forallb p tl = true.

(** The file names of the main block. *)
Definition log_name (stamp : string) : string := "sdrm_" +:+ stamp +:+ ".log".
Definition results_name (stamp : string) : string := "results_" +:+ stamp +:+ ".json".

(** *** Scenarios for the directory and the session *)

Definition example_rows : list (string * string * string) :=
  [("Example Press", "https://press.example/tips", "examplepress.onion");
   ("Other Desk", "https://desk.example/securedrop", "otherdesk.onion")].

Definition unix_eol : string := String Lines.lf EmptyString.

(** A header, two entries and a closing line, each ended by LF. *)
Definition example_directory : string :=
  join_lines unix_eol ("SecureDrop directory" :: map row_line example_rows)
  +:+ "-- end of list --" +:+ unix_eol.

(** The same, but the second line has two fields only. *)
Definition broken_directory : string :=
  join_lines unix_eol
    ["SecureDrop directory";
     row_line ("Example Press", "https://press.example/tips", "examplepress.onion");
     "Other Desk" +:+ String tab "otherdesk.onion"]
  +:+ "-- end of list --" +:+ unix_eol.

(** The line separator U+2028, the paragraph separator U+2029 and the
    next-line character U+0085, encoded. *)
Definition line_separator : string := String "226" (String "128" (String "168" "")).
Definition paragraph_separator : string :=
  String "226" (String "128" (String "169" "")).
Definition next_line : string := String "194" (String "133" "").

(** Two entries of which the first ends with a line separator. *)
Definition separated_directory : string :=
  "H" +:+ unix_eol
  +:+ row_line ("A", "b", "c") +:+ line_separator
  +:+ row_line ("D", "e", "f") +:+ unix_eol
  +:+ "F" +:+ unix_eol.

(** A line separator inside the name of the organization. *)
Definition split_name_directory : string :=
  "H" +:+ unix_eol
  +:+ row_line ("News" +:+ line_separator +:+ "Desk", "l", "n.onion") +:+ unix_eol
  +:+ "F" +:+ unix_eol.

(** The first record is answered with a version; the probe of the second
    fails with an exception the handler does not name. *)
Definition timeout_run : state (list reply) :=
  start [ROpen (Ok "<p>Powered by SecureDrop 2.5.0.</p>"); RCircuits (Ok []);
         ROpen (Raised (OtherError "timeout"))]
        [example_entry; other_entry].

(** A record without [ths_address]. *)
Definition anonymous_run : state (list reply) :=
  start [] [{[ "organization" := VStr "No Address" ]}].

(** The probe fails at the proxy and the controller fails on the
    descriptor. *)
Definition controller_error_run : state (list reply) :=
  start [ROpen (Raised URLError); RDescriptor (Raised (OtherError "ControllerError"))]
        [example_entry].

(** Two records; the probe of the first fails with a URL error and the
    controller fails on its descriptor. *)
Definition abandoned_run : state (list reply) :=
  start [ROpen (Raised URLError); RDescriptor (Raised (OtherError "ControllerError"))]
        [example_entry; other_entry].

(** Three circuits are live; closing the second fails. *)
Definition failing_close_run : state (list reply) :=
  start [RCircuits (Ok [intro_circuit; general_circuit; rend_circuit]);
         RClose (Ok tt); RClose (Raised (OtherError "InvalidRequest"))]
        [<["version" := VStr "2.5.0"]> example_entry].

(** The first record is answered with a version, the second is unreachable
    and has no descriptor. *)
Definition mixed_replies : list reply :=
  [ROpen (Ok "<p>Powered by SecureDrop 2.5.0.</p>"); RCircuits (Ok []);
   ROpen (Raised URLError); RDescriptor (Raised DescriptorUnavailable)].

Definition mixed_run : state (list reply) :=
  start mixed_replies [example_entry; other_entry].

Definition host_start (w : list host_reply) : session (list host_reply) :=
  Session w [].

Definition opening : list host_reply :=
  [HUnit (Ok tt); HUnit (Ok tt); HUnit (Ok tt); HText (Ok "0.4.8.12")].

(** A session in which everything succeeds. *)
Definition good_session : list host_reply :=
  opening ++ [HText (Ok example_directory)] ++ map HService mixed_replies
  ++ [HUnit (Ok tt); HUnit (Ok tt)].

(** A session in which the second record is answered without the
    pattern. *)
Definition malformed_session : list host_reply :=
  opening ++ [HText (Ok example_directory)]
  ++ [HService (ROpen (Ok "<p>Powered by SecureDrop 2.5.0.</p>"));
      HService (RCircuits (Ok []));
      HService (ROpen (Ok "<html>502 Bad Gateway</html>"));
      HUnit (Ok tt)].

(** A session in which a line of the directory is too short. *)
Definition broken_session : list host_reply :=
  opening ++ [HText (Ok broken_directory); HUnit (Ok tt)].

(** A session in which the controller refuses the authentication. *)
Definition refused_session : list host_reply :=
  [HUnit (Ok tt); HUnit (Ok tt); HUnit (Raised (OtherError "AuthenticationFailure"))].

Definition stamp_example : string := "11-04_09:42:00".

(** * Facts *)

(** ** The version pattern *)

Section TextFacts.
Import Text.

Lemma append_nil (t : string) : "" +:+ t = t.
Proof. reflexivity. Qed.

Lemma append_cons a (s t : string) : String a s +:+ t = String a (s +:+ t).
Proof. reflexivity. Qed.

Lemma append_nil_r (s : string) : s +:+ "" = s.
Proof. induction s as [|a s IH]; [done|]. by rewrite append_cons, IH. Qed.

Lemma append_assoc (a b c : string) : (a +:+ b) +:+ c = a +:+ b +:+ c.
Proof. induction a as [|x a IH]; [done|]. by rewrite !append_cons, IH. Qed.

Lemma class_not_space a : in_class a = true -> is_space a = false.
Proof.
  destruct a as [[] [] [] [] [] [] [] []]; vm_compute; congruence.
Qed.

Lemma strip_prefix_app p s : strip_prefix p (p +:+ s) = Some s.
Proof.
  induction p as [|a p IH]; [done|].
  rewrite append_cons. simpl. by rewrite Ascii.eqb_refl.
Qed.

Lemma strip_prefix_Some p s rest : strip_prefix p s = Some rest -> s = p +:+ rest.
Proof.
  revert s. induction p as [|a p IH]; intros s; simpl.
  { by intros [= ->]. }
  destruct s as [|b s]; [done|].
  destruct (Ascii.eqb a b) eqn:E; [|congruence].
  apply Ascii.eqb_eq in E as ->. intros Hs.
  by rewrite append_cons, <- (IH _ Hs).
Qed.

Lemma take_class_all s : all_class (take_class s) = true.
Proof.
  induction s as [|a s IH]; simpl; [done|].
  destruct (in_class a) eqn:E; simpl; [|done]. by rewrite E.
Qed.

Lemma take_class_split s :
  exists post, s = take_class s +:+ post /\ stops_run post = true.
Proof.
  induction s as [|a s [post [IH1 IH2]]]; simpl.
  - by exists "".
  - destruct (in_class a) eqn:E.
    + exists post. by rewrite append_cons, <- IH1.
    + exists (String a s). simpl. by rewrite E.
Qed.

Lemma take_class_app run post :
  all_class run = true -> stops_run post = true -> take_class (run +:+ post) = run.
Proof.
  intros Hrun Hpost. induction run as [|a run IH]; simpl in *.
  - destruct post as [|b post]; simpl in *; [done|].
    by destruct (in_class b).
  - apply andb_prop in Hrun as [Ha Hrun].
    rewrite ?append_cons. simpl. by rewrite Ha, IH.
Qed.

Lemma match_here_app run post :
  run <> "" -> all_class run = true -> stops_run post = true ->
  match_here (banner +:+ run +:+ post) = Some (banner +:+ run).
Proof.
  intros Hne Hrun Hpost. unfold match_here.
  rewrite strip_prefix_app, take_class_app by done.
  by destruct run.
Qed.

Lemma match_here_Some s m :
  match_here s = Some m ->
  exists run post, s = banner +:+ run +:+ post /\ m = banner +:+ run
    /\ run <> "" /\ all_class run = true /\ stops_run post = true.
Proof.
  unfold match_here. destruct (strip_prefix banner s) as [rest|] eqn:E; [|done].
  apply strip_prefix_Some in E as ->.
  destruct (take_class_split rest) as [post [Hrest Hpost]].
  pose proof (take_class_all rest) as Hall.
  destruct (take_class rest) as [|a run] eqn:Er; [done|].
  intros [= <-]. exists (String a run), post. by rewrite <- Hrest.
Qed.

Lemma search_unfold s :
  search s = match match_here s with
             | Some m => Some m
             | None => match s with
                       | String _ s' => search s'
                       | EmptyString => None
                       end
             end.
Proof. by destruct s. Qed.

Lemma search_here s m : match_here s = Some m -> search s = Some m.
Proof. intros Hm. by rewrite search_unfold, Hm. Qed.

Lemma search_Some s m :
  search s = Some m ->
  exists pre rest, s = pre +:+ rest /\ match_here rest = Some m.
Proof.
  induction s as [|a s IH].
  - by vm_compute.
  - rewrite search_unfold. destruct (match_here (String a s)) eqn:E.
    + intros [= <-]. by exists "", (String a s).
    + intros Hs. destruct (IH Hs) as (pre & rest & -> & Hm).
      by exists (String a pre), rest.
Qed.

Lemma search_skip pre rest :
  no_match_before pre rest = true -> search (pre +:+ rest) = search rest.
Proof.
  induction pre as [|a pre IH]; [done|].
  cbn [no_match_before]. rewrite search_unfold.
  destruct (match_here (String a pre +:+ rest)); [done|].
  rewrite append_cons. exact IH.
Qed.

Lemma search_app pre run post :
  no_match_before pre (banner +:+ run +:+ post) = true ->
  run <> "" -> all_class run = true -> stops_run post = true ->
  search (pre +:+ banner +:+ run +:+ post) = Some (banner +:+ run).
Proof.
  intros Hpre Hne Hrun Hpost. rewrite search_skip by done.
  by apply search_here, match_here_app.
Qed.

Lemma split_from_run run cur :
  all_class run = true -> cur +:+ run <> "" ->
  split_from cur run = [cur +:+ run].
Proof.
  revert cur. induction run as [|a run IH]; intros cur Hrun Hne.
  - rewrite append_nil_r in *. simpl. by destruct cur.
  - simpl in Hrun. apply andb_prop in Hrun as [Ha Hrun].
    cbn [split_from]. rewrite (class_not_space _ Ha).
    rewrite IH; [|done|].
    + by rewrite append_assoc.
    + rewrite append_assoc. by destruct cur.
Qed.

Lemma split_banner t :
  split (banner +:+ t) = "Powered" :: "by" :: "SecureDrop" :: split_from "" t.
Proof. vm_compute. reflexivity. Qed.

Lemma split_match run :
  run <> "" -> all_class run = true ->
  split (banner +:+ run) = ["Powered"; "by"; "SecureDrop"; run].
Proof.
  intros Hne Hrun. rewrite split_banner.
  rewrite split_from_run; [done|done|by destruct run].
Qed.

Lemma last_split_match run :
  run <> "" -> all_class run = true ->
  last (split (banner +:+ run)) = Some run.
Proof. intros Hne Hrun. by rewrite split_match. Qed.

Lemma drop_last_class s : all_class s = true -> all_class (drop_last s) = true.
Proof.
  induction s as [|a s IH]; [done|].
  simpl. intros [Ha Hs]%andb_prop. destruct s as [|b s]; [done|].
  cbn [all_class]. rewrite Ha. by apply IH.
Qed.

Lemma drop_last_snoc s a : drop_last (s +:+ String a "") = s.
Proof.
  induction s as [|b s IH]; [done|].
  rewrite append_cons. cbn [drop_last]. rewrite IH.
  destruct s; by rewrite ?append_cons.
Qed.

Lemma class_not_unreachable v : all_class v = true -> v <> "unreachable".
Proof. intros Hv ->. by vm_compute in Hv. Qed.

Example example_search_page :
  search "<p>Powered by SecureDrop 2.5.0.</p>" = Some "Powered by SecureDrop 2.5.0.".
Proof. vm_compute. reflexivity. Qed.

Example example_search_leftmost :
  search "Powered by SecureDrop 1.8.2. Powered by SecureDrop 2.5.0."
  = Some "Powered by SecureDrop 1.8.2.".
Proof. vm_compute. reflexivity. Qed.

Example example_search_bare_banner : search "Powered by SecureDrop <b>" = None.
Proof. vm_compute. reflexivity. Qed.

Example example_split :
  split "  Powered by	SecureDrop 2.5.0. " = ["Powered"; "by"; "SecureDrop"; "2.5.0."].
Proof. vm_compute. reflexivity. Qed.

Example example_drop_last : drop_last "2.5.0." = "2.5.0" /\ drop_last "" = "".
Proof. split; reflexivity. Qed.
End TextFacts.

(** ** The checker *)

Section MonitorFacts.
Import Text.
Context {W : Type} `{Backend W}.
Implicit Types (s : state W) (i : nat) (K : list string).
Implicit Types (R : relation (state W)).

Lemma frame_refl i K s : frame i K s s.
Proof. repeat split; auto. exists []. by rewrite app_nil_r. Qed.

Lemma frame_trans i K s1 s2 s3 :
  frame i K s1 s2 -> frame i K s2 s3 -> frame i K s1 s3.
Proof.
  intros (L1 & O1 & F1 & D1 & [t1 T1]) (L2 & O2 & F2 & D2 & [t2 T2]).
  repeat split.
  - congruence.
  - intros j Hj. rewrite O2, O1; auto.
  - intros k Hk. rewrite F2, F1; auto.
  - auto.
  - exists (t1 ++ t2). by rewrite T2, T1, app_assoc.
Qed.

Lemma frame_weaken i K K' s s' : K ⊆ K' -> frame i K s s' -> frame i K' s s'.
Proof.
  intros HK (L & O & F & D & T). repeat split; auto.
Qed.

Lemma frame_frame_all i K s s' : frame i K s s' -> frame_all K s s'.
Proof.
  intros (L & O & F & D & T). repeat split; auto.
  - intros j k Hk. destruct (decide (j = i)) as [->|Hj]; [auto|].
    unfold field_at. by rewrite O.
  - intros j k. destruct (decide (j = i)) as [->|Hj]; [auto|].
    unfold field_at. by rewrite O.
Qed.

Lemma frame_all_refl K s : frame_all K s s.
Proof. eapply frame_frame_all, (frame_refl 0). Qed.

Lemma frame_all_trans K s1 s2 s3 :
  frame_all K s1 s2 -> frame_all K s2 s3 -> frame_all K s1 s3.
Proof.
  intros (L1 & F1 & D1 & [t1 T1]) (L2 & F2 & D2 & [t2 T2]).
  repeat split.
  - congruence.
  - intros j k Hk. rewrite F2, F1; auto.
  - auto.
  - exists (t1 ++ t2). by rewrite T2, T1, app_assoc.
Qed.

(** *** The monad *)

Lemma preserves_ret {A} R `{!Reflexive R} (a : A) : preserves (W:=W) R (ret a).
Proof. intros s. simpl. reflexivity. Qed.

Lemma preserves_raise {A} R `{!Reflexive R} e : preserves (W:=W) R (raise (A:=A) e).
Proof. intros s. simpl. reflexivity. Qed.

Lemma preserves_bind {A B} R `{!Transitive R} (m : M W A) (k : A -> M W B) :
  preserves (W:=W) R m -> (forall a, preserves (W:=W) R (k a)) -> preserves (W:=W) R (bind m k).
Proof.
  intros Hm Hk s. unfold bind. specialize (Hm s).
  destruct (m s) as [[a|e] s1]; simpl in *; [|done].
  etransitivity; [exact Hm|apply Hk].
Qed.

Lemma preserves_try {A} R `{!Transitive R} (m h : M W A) c :
  preserves (W:=W) R m -> preserves (W:=W) R h -> preserves (W:=W) R (try_except m c h).
Proof.
  intros Hm Hh s. unfold try_except. specialize (Hm s).
  destruct (m s) as [[a|e] s1]; simpl in *; [done|].
  destruct (c e); [|done].
  etransitivity; [exact Hm|apply Hh].
Qed.

#[local] Instance frame_preorder i K : PreOrder (frame (W:=W) i K).
Proof. split; [intros s; apply frame_refl|intros ???; apply frame_trans]. Qed.

#[local] Instance frame_all_preorder K : PreOrder (frame_all (W:=W) K).
Proof. split; [intros s; apply frame_all_refl|intros ???; apply frame_all_trans]. Qed.

Lemma frame_log i K s w e :
  frame i K s (State w (instances s) (trace s ++ [e])).
Proof. repeat split; auto. by exists [e]. Qed.

Lemma preserves_get_instance i j K : preserves (W:=W) (frame i K) (get_instance j).
Proof.
  intros s. unfold get_instance. destruct (instances s !! j); apply frame_refl.
Qed.

Lemma preserves_setitem i K k v : k ∈ K -> preserves (W:=W) (frame i K) (setitem i k v).
Proof.
  intros Hk s. unfold setitem, frame, field_at. cbn [snd instances trace].
  split; [apply length_alter|]. split; [|split; [|split]].
  - intros j Hj. by rewrite list_lookup_alter_ne.
  - intros k' Hk'. rewrite list_lookup_alter_eq.
    destruct (instances s !! i) as [inst|]; [|done]. simpl.
    apply lookup_insert_ne. intros ->. done.
  - intros k'. rewrite list_lookup_alter_eq.
    destruct (instances s !! i) as [inst|]; [|done]. simpl.
    intros Hs. rewrite lookup_insert. case_decide; eauto.
  - by eexists.
Qed.

Lemma preserves_print i j K : preserves (W:=W) (frame i K) (print j).
Proof.
  intros s. unfold print, bind, get_instance.
  destruct (instances s !! j); [apply frame_log|apply frame_refl].
Qed.

Lemma preserves_call_open i K url t : preserves (W:=W) (frame i K) (call_open url t).
Proof.
  intros s. unfold call_open. destruct (open_url _ _ _). apply frame_log.
Qed.

Lemma preserves_call_get_descriptor i K a :
  preserves (W:=W) (frame i K) (call_get_descriptor a).
Proof.
  intros s. unfold call_get_descriptor.
  destruct (get_hidden_service_descriptor _ _). apply frame_log.
Qed.

Lemma preserves_call_get_circuits i K : preserves (W:=W) (frame i K) call_get_circuits.
Proof.
  intros s. unfold call_get_circuits. destruct (get_circuits _). apply frame_log.
Qed.

Lemma preserves_call_close_circuit i K id :
  preserves (W:=W) (frame i K) (call_close_circuit id).
Proof.
  intros s. unfold call_close_circuit. destruct (close_circuit _ _). apply frame_log.
Qed.

Lemma preserves_as_str i K v : preserves (W:=W) (frame i K) (as_str v).
Proof.
  destruct v as [[]|]; simpl; first [apply preserves_ret|apply preserves_raise];
    apply _.
Qed.

Ltac solve_keys :=
  unfold result_keys;
  match goal with
  | |- _ ⊆ _ =>
      let x := fresh "x" in let Hx := fresh "Hx" in
      intros x Hx; rewrite ?elem_of_cons, ?elem_of_nil in Hx;
      rewrite ?elem_of_cons; intuition auto
  | |- _ ∈ _ => rewrite ?elem_of_cons; intuition auto
  end.

Ltac preserves_step :=
  first
    [ apply preserves_ret; apply _
    | apply preserves_raise; apply _
    | apply preserves_setitem; solve_keys
    | apply preserves_get_instance
    | apply preserves_print
    | apply preserves_call_open
    | apply preserves_call_get_descriptor
    | apply preserves_call_get_circuits
    | apply preserves_call_close_circuit
    | apply preserves_as_str
    | apply preserves_bind; [apply _| |intros ?]
    | apply preserves_try; [apply _| |]
    | match goal with |- preserves _ (match ?x with _ => _ end) => destruct x end ].

Lemma preserves_inspect i K c acc : preserves (W:=W) (frame i K) (inspect c acc).
Proof. unfold inspect. repeat preserves_step. Qed.

Lemma preserves_collect i K cs acc : preserves (W:=W) (frame i K) (collect cs acc).
Proof.
  revert acc. induction cs as [|c cs IH]; intros acc; simpl.
  - repeat preserves_step.
  - apply preserves_bind; [apply _|apply preserves_inspect|auto].
Qed.

Lemma preserves_collect_circuits i :
  preserves (W:=W) (frame i ["intro_circs"; "rend_circs"]) (collect_circuits i).
Proof.
  unfold collect_circuits.
  apply preserves_bind; [apply _|apply preserves_call_get_circuits|intros cs].
  apply preserves_bind; [apply _|apply preserves_collect|intros acc].
  repeat preserves_step.
Qed.

Lemma preserves_probe i hs t : preserves (W:=W) (frame i ["version"]) (probe i hs t).
Proof. unfold probe. repeat preserves_step. Qed.

Lemma preserves_diagnose i hs :
  preserves (W:=W) (frame i ["version"; "intro_pts"]) (diagnose i hs).
Proof. unfold diagnose. repeat preserves_step. Qed.

Lemma preserves_weaken {A} i K K' (m : M W A) :
  K ⊆ K' -> preserves (W:=W) (frame i K) m -> preserves (W:=W) (frame i K') m.
Proof. intros HK Hm s. eapply frame_weaken, Hm. done. Qed.

Lemma preserves_check_instance t i :
  preserves (W:=W) (frame i result_keys) (check_instance t i).
Proof.
  unfold check_instance.
  apply preserves_bind; [apply _|apply preserves_get_instance|intros inst].
  apply preserves_bind; [apply _| |intros fl].
  - apply preserves_try; [apply _| |].
    + apply preserves_bind; [apply _| |intros; apply preserves_ret; apply _].
      eapply preserves_weaken, preserves_probe. solve_keys.
    + eapply preserves_weaken, preserves_diagnose. solve_keys.
  - destruct fl; [|apply preserves_ret; apply _].
    eapply preserves_weaken, preserves_collect_circuits. solve_keys.
Qed.

Lemma preserves_for_each t l :
  preserves (W:=W) (frame_all result_keys) (for_each (check_instance t) l).
Proof.
  induction l as [|i l IH]; simpl.
  - apply preserves_ret; apply _.
  - apply preserves_bind; [apply _| |auto].
    intros s. eapply frame_frame_all, preserves_check_instance.
Qed.

(** *** Single steps *)

Lemma alter_at (l : list instance) i f inst :
  l !! i = Some inst -> alter f i l = <[i := f inst]> l.
Proof.
  intros Hl. apply list_eq. intros j.
  destruct (decide (i = j)) as [<-|Hne].
  - rewrite list_lookup_alter_eq, Hl, list_lookup_insert_eq; [done|].
    by eapply lookup_lt_Some.
  - by rewrite list_lookup_alter_ne, list_lookup_insert_ne.
Qed.

Ltac unfold_monitor :=
  unfold check_instance, collect_circuits, diagnose, probe, print, as_str;
  unfold try_except, bind, ret, raise, get_instance, setitem, call_open,
    call_get_descriptor, call_get_circuits, call_close_circuit, log.

Lemma check_instance_malformed t i s inst address body w :
  instances s !! i = Some inst ->
  inst !! "ths_address" = Some (VStr address) ->
  open_url ("http://" +:+ address) t (world s) = (Ok body, w) ->
  Text.search body = None ->
  check_instance t i s =
    (Raised AttributeError,
     State w (instances s)
           (trace s ++ [EvOpen ("http://" +:+ address) t (Ok body)])).
Proof.
  intros Hi Ha Ho Hs. unfold_monitor.
  rewrite Hi, Ha. cbn [world instances trace]. rewrite Ho, Hs. done.
Qed.

Lemma check_instance_version t i s inst address body w m token :
  instances s !! i = Some inst ->
  inst !! "ths_address" = Some (VStr address) ->
  open_url ("http://" +:+ address) t (world s) = (Ok body, w) ->
  Text.search body = Some m ->
  last (Text.split m) = Some token ->
  check_instance t i s =
    collect_circuits i
      (State w (<[i := <["version" := VStr (Text.drop_last token)]> inst]> (instances s))
         (trace s ++ [EvOpen ("http://" +:+ address) t (Ok body);
                      EvSet i "version" (VStr (Text.drop_last token))])).
Proof.
  intros Hi Ha Ho Hs Hl. rewrite <- (alter_at _ _ _ _ Hi).
  unfold check_instance, probe, as_str.
  unfold try_except, bind, ret, raise, get_instance, setitem, call_open.
  rewrite Hi, Ha. cbn [world instances trace]. rewrite Ho, Hs, Hl.
  cbn [world instances trace]. by rewrite <- app_assoc.
Qed.

Lemma recorded_version t i s inst address body w m token :
  instances s !! i = Some inst ->
  inst !! "ths_address" = Some (VStr address) ->
  open_url ("http://" +:+ address) t (world s) = (Ok body, w) ->
  Text.search body = Some m ->
  last (Text.split m) = Some token ->
  field_at (instances (check_instance t i s).2) i "version"
  = Some (VStr (Text.drop_last token)).
Proof.
  intros Hi Ha Ho Hs Hl.
  rewrite (check_instance_version _ _ _ _ _ _ _ _ _ Hi Ha Ho Hs Hl).
  destruct (preserves_collect_circuits i
    (State w (<[i := <["version" := VStr (Text.drop_last token)]> inst]> (instances s))
       (trace s ++ [EvOpen ("http://" +:+ address) t (Ok body);
                    EvSet i "version" (VStr (Text.drop_last token))])))
    as (_ & _ & F & _).
  rewrite F by (rewrite !not_elem_of_cons; repeat split; try done; apply not_elem_of_nil).
  unfold field_at. cbn [instances].
  rewrite list_lookup_insert_eq by (by eapply lookup_lt_Some).
  simpl. by rewrite lookup_insert_eq.
Qed.

(** *** The circuit loop *)

Lemma collect_app l1 l2 acc s :
  collect (l1 ++ l2) acc s = bind (collect l1 acc) (collect l2) s.
Proof.
  revert acc s. induction l1 as [|c l1 IH]; intros acc s; [done|].
  cbn [collect app]. unfold bind.
  destruct (inspect c acc s) as [[acc'|e] s1]; [|done].
  rewrite IH. done.
Qed.

Lemma collect_spec cs acc s w' :
  close_all cs (world s) = Some w' ->
  collect cs acc s =
    (Ok (acc.1 ++ map intro_snapshot (List.filter (has_purpose "HS_CLIENT_INTRO") cs),
         acc.2 ++ map rend_snapshot (List.filter (has_purpose "HS_CLIENT_REND") cs)),
     State w' (instances s) (trace s ++ close_events cs)).
Proof.
  revert acc s. induction cs as [|c cs IH]; intros [ic rc] s Hw.
  - simpl in *. injection Hw as <-. unfold ret. rewrite !app_nil_r.
    by destruct s.
  - cbn [close_all] in Hw.
    destruct (close_circuit (circ_id c) (world s)) as [[[]|e] w1] eqn:Hc; [|done].
    cbn [collect]. unfold inspect. unfold bind, call_close_circuit, ret.
    cbn zeta. rewrite Hc. rewrite IH by exact Hw. cbn [fst snd world instances trace List.filter map close_events].
    f_equal; [|by rewrite <- app_assoc].
    destruct (has_purpose "HS_CLIENT_INTRO" c), (has_purpose "HS_CLIENT_REND" c);
      cbn [map]; by rewrite <- ?app_assoc.
Qed.

Lemma collect_fails l1 c l2 acc s w e w' :
  close_all l1 (world s) = Some w ->
  close_circuit (circ_id c) w = (Raised e, w') ->
  collect (l1 ++ c :: l2) acc s =
    (Raised e,
     State w' (instances s)
       (trace s ++ close_events l1 ++ [EvCloseCircuit (circ_id c) (Raised e)])).
Proof.
  intros Hl1 Hc. rewrite collect_app. unfold bind.
  rewrite (collect_spec l1 acc s w Hl1).
  cbn [collect]. unfold bind, inspect. unfold bind, call_close_circuit.
  cbn [world instances trace]. rewrite Hc. by rewrite <- app_assoc.
Qed.

Lemma close_all_None cs (w : W) :
  close_all cs w = None ->
  exists l1 c l2 w' e w'',
    cs = l1 ++ c :: l2
    /\ close_all l1 w = Some w'
    /\ close_circuit (circ_id c) w' = (Raised e, w'').
Proof.
  revert w. induction cs as [|c cs IH]; intros w Hw; [done|].
  cbn [close_all] in Hw.
  destruct (close_circuit (circ_id c) w) as [[[]|e] w1] eqn:Hc.
  - destruct (IH _ Hw) as (l1 & c' & l2 & w' & e & w'' & -> & Hl1 & Hc').
    exists (c :: l1), c', l2, w', e, w''. split; [done|]. split; [|done].
    cbn [close_all]. by rewrite Hc.
  - by exists [], c, cs, w, e, w1.
Qed.

Lemma filter_purpose p cs :
  List.filter (has_purpose p) cs
  = List.filter (fun c => bool_decide (purpose c = Some p)) cs.
Proof.
  apply List.filter_ext. intros c. unfold has_purpose.
  destruct (purpose c) as [q|]; [|done].
  destruct (String.eqb_spec q p) as [->|Hne].
  - by rewrite bool_decide_eq_true_2.
  - rewrite bool_decide_eq_false_2; [done|]. congruence.
Qed.

Lemma purposes_disjoint cs :
  length (List.filter (has_purpose "HS_CLIENT_INTRO") cs)
  + length (List.filter (has_purpose "HS_CLIENT_REND") cs) <= length cs.
Proof.
  induction cs as [|c cs IH]; [done|]. cbn [List.filter].
  destruct (has_purpose "HS_CLIENT_INTRO" c) eqn:E1,
           (has_purpose "HS_CLIENT_REND" c) eqn:E2; cbn [length]; try lia.
  unfold has_purpose in E1, E2. destruct (purpose c) as [q|]; [|done].
  apply String.eqb_eq in E1, E2. congruence.
Qed.

Lemma collect_circuits_spec i s inst v cs w1 w2 :
  instances s !! i = Some inst ->
  inst !! "version" = Some v ->
  get_circuits (world s) = (Ok cs, w1) ->
  close_all cs w1 = Some w2 ->
  let inst' :=
    <["rend_circs" := VCircs (map rend_snapshot (List.filter (has_purpose "HS_CLIENT_REND") cs))]>
      (<["intro_circs" := VCircs (map intro_snapshot (List.filter (has_purpose "HS_CLIENT_INTRO") cs))]> inst) in
  collect_circuits i s =
    (Ok tt,
     State w2 (<[i := inst']> (instances s))
       (trace s ++ [EvGetCircuits (Ok cs)] ++ close_events cs
          ++ [EvSet i "intro_circs" (VCircs (map intro_snapshot (List.filter (has_purpose "HS_CLIENT_INTRO") cs)));
              EvSet i "rend_circs" (VCircs (map rend_snapshot (List.filter (has_purpose "HS_CLIENT_REND") cs)))]
          ++ if is_unreachable v then [EvPrint inst'] else [])).
Proof.
  intros Hi Hv Hg Hc inst'.
  assert (Hlt : i < length (instances s)) by (by eapply lookup_lt_Some).
  unfold collect_circuits. unfold bind at 1. unfold call_get_circuits. rewrite Hg.
  unfold bind at 1.
  rewrite (collect_spec cs ([], []) (State w1 (instances s) (trace s ++ [EvGetCircuits (Ok cs)])) w2 Hc).
  cbn [fst snd app world instances trace].
  unfold print, bind, setitem, get_instance, ret, raise, log.
  cbn [fst snd world instances trace].
  rewrite (alter_at _ _ _ _ Hi).
  rewrite (alter_at _ _ _ (<["intro_circs" := _]> inst))
    by (by rewrite list_lookup_insert_eq).
  rewrite list_insert_insert_eq, list_lookup_insert_eq by done.
  rewrite lookup_insert_ne, lookup_insert_ne, Hv by done.
  fold inst'.
  destruct (is_unreachable v); cbn [world instances trace].
  - rewrite list_lookup_insert_eq by done.
    cbn [world instances trace]. by rewrite <- !app_assoc.
  - by rewrite <- !app_assoc.
Qed.

Lemma collect_circuits_store i s inst cs w1 w2 :
  instances s !! i = Some inst ->
  get_circuits (world s) = (Ok cs, w1) ->
  close_all cs w1 = Some w2 ->
  let inst' :=
    <["rend_circs" := VCircs (map rend_snapshot (List.filter (has_purpose "HS_CLIENT_REND") cs))]>
      (<["intro_circs" := VCircs (map intro_snapshot (List.filter (has_purpose "HS_CLIENT_INTRO") cs))]> inst) in
  exists tl,
    (collect_circuits i s).2 =
      State w2 (<[i := inst']> (instances s))
        (trace s ++ [EvGetCircuits (Ok cs)] ++ close_events cs ++ tl).
Proof.
  intros Hi Hg Hc inst'.
  assert (Hlt : i < length (instances s)) by (by eapply lookup_lt_Some).
  unfold collect_circuits. unfold bind at 1. unfold call_get_circuits. rewrite Hg.
  unfold bind at 1.
  rewrite (collect_spec cs ([], []) (State w1 (instances s) (trace s ++ [EvGetCircuits (Ok cs)])) w2 Hc).
  cbn [fst snd app world instances trace].
  unfold print, bind, setitem, get_instance, ret, raise, log.
  cbn [fst snd world instances trace].
  rewrite (alter_at _ _ _ _ Hi).
  rewrite (alter_at _ _ _ (<["intro_circs" := _]> inst))
    by (by rewrite list_lookup_insert_eq).
  rewrite list_insert_insert_eq, list_lookup_insert_eq by done.
  fold inst'. rewrite <- !app_assoc. cbn [app].
  destruct (inst' !! "version") as [v|]; [|eexists; reflexivity].
  destruct (is_unreachable v); [|eexists; reflexivity].
  cbn [instances]. rewrite list_lookup_insert_eq by done.
  cbn [snd world instances trace].
  rewrite <- app_assoc. cbn [app]. rewrite <- app_assoc.
  eexists; reflexivity.
Qed.

Lemma collect_circuits_state i s inst cs w1 w2 :
  instances s !! i = Some inst ->
  get_circuits (world s) = (Ok cs, w1) ->
  close_all cs w1 = Some w2 ->
  let intro_circs :=
    VCircs (map intro_snapshot (List.filter (has_purpose "HS_CLIENT_INTRO") cs)) in
  let rend_circs :=
    VCircs (map rend_snapshot (List.filter (has_purpose "HS_CLIENT_REND") cs)) in
  let inst' := <["rend_circs" := rend_circs]> (<["intro_circs" := intro_circs]> inst) in
  exists tl,
    (tl = [] \/ tl = [EvPrint inst'])
    /\ (collect_circuits i s).2 =
         State w2 (<[i := inst']> (instances s))
           (trace s ++ [EvGetCircuits (Ok cs)] ++ close_events cs
              ++ [EvSet i "intro_circs" intro_circs; EvSet i "rend_circs" rend_circs]
              ++ tl).
Proof.
  intros Hi Hg Hc intro_circs rend_circs inst'.
  assert (Hlt : i < length (instances s)) by (by eapply lookup_lt_Some).
  unfold collect_circuits. unfold bind at 1. unfold call_get_circuits. rewrite Hg.
  unfold bind at 1.
  rewrite (collect_spec cs ([], []) (State w1 (instances s) (trace s ++ [EvGetCircuits (Ok cs)])) w2 Hc).
  cbn [fst snd app world instances trace].
  unfold print, bind, setitem, get_instance, ret, raise, log.
  cbn [fst snd world instances trace].
  rewrite (alter_at _ _ _ _ Hi).
  rewrite (alter_at _ _ _ (<["intro_circs" := _]> inst))
    by (by rewrite list_lookup_insert_eq).
  rewrite list_insert_insert_eq, list_lookup_insert_eq by done.
  fold intro_circs rend_circs. fold inst'. rewrite <- !app_assoc. cbn [app].
  destruct (inst' !! "version") as [v|]; [|exists []; split; [by left|done]].
  destruct (is_unreachable v); [|exists []; split; [by left|done]].
  cbn [instances]. rewrite list_lookup_insert_eq by done.
  cbn [snd world instances trace].
  exists [EvPrint inst']. split; [by right|].
  f_equal. rewrite <- app_assoc. cbn [app]. by rewrite <- app_assoc.
Qed.

Lemma close_calls_app tr1 tr2 :
  close_calls (tr1 ++ tr2) = close_calls tr1 ++ close_calls tr2.
Proof. apply omap_app. Qed.

Lemma collect_circuits_get_fails i s e w1 :
  get_circuits (world s) = (Raised e, w1) ->
  collect_circuits i s =
    (Raised e, State w1 (instances s) (trace s ++ [EvGetCircuits (Raised e)])).
Proof.
  intros Hg. unfold collect_circuits. unfold bind at 1.
  unfold call_get_circuits. by rewrite Hg.
Qed.

Lemma collect_circuits_close_fails i s l1 c l2 w1 w e w' :
  get_circuits (world s) = (Ok (l1 ++ c :: l2), w1) ->
  close_all l1 w1 = Some w ->
  close_circuit (circ_id c) w = (Raised e, w') ->
  collect_circuits i s =
    (Raised e,
     State w' (instances s)
       (trace s ++ [EvGetCircuits (Ok (l1 ++ c :: l2))] ++ close_events l1
          ++ [EvCloseCircuit (circ_id c) (Raised e)])).
Proof.
  intros Hg Hl1 Hc. unfold collect_circuits. unfold bind at 1.
  unfold call_get_circuits. rewrite Hg. unfold bind at 1.
  rewrite (collect_fails l1 c l2 ([], []) _ w e w'); [|done..].
  cbn [world instances trace]. by rewrite <- app_assoc.
Qed.

Lemma collect_circuits_field i s k :
  k <> "intro_circs" -> k <> "rend_circs" ->
  field_at (instances (collect_circuits i s).2) i k = field_at (instances s) i k.
Proof.
  intros H1 H2. destruct (preserves_collect_circuits i s) as (_ & _ & F & _).
  apply F. rewrite !not_elem_of_cons. repeat split; try done. apply not_elem_of_nil.
Qed.

Lemma field_at_insert (l : list instance) i inst k :
  i < length l -> field_at (<[i := inst]> l) i k = inst !! k.
Proof. intros Hi. unfold field_at. by rewrite list_lookup_insert_eq. Qed.

(** *** The handler *)

Lemma check_instance_no_address t i s inst :
  instances s !! i = Some inst ->
  (forall a, inst !! "ths_address" <> Some (VStr a)) ->
  check_instance t i s = (Raised TypeError, s).
Proof.
  intros Hi Ha. unfold check_instance, probe, as_str.
  unfold try_except, bind, get_instance. rewrite Hi.
  destruct (inst !! "ths_address") as [[a|l]|]; [by destruct (Ha a)|done..].
Qed.

Lemma check_instance_probe_error t i s inst address e w :
  instances s !! i = Some inst ->
  inst !! "ths_address" = Some (VStr address) ->
  open_url ("http://" +:+ address) t (world s) = (Raised e, w) ->
  proxy_failure e = false ->
  check_instance t i s =
    (Raised e,
     State w (instances s)
           (trace s ++ [EvOpen ("http://" +:+ address) t (Raised e)])).
Proof.
  intros Hi Ha Ho He. unfold check_instance, probe, as_str.
  unfold try_except, bind, ret, get_instance, call_open.
  rewrite Hi, Ha. cbn [world instances trace]. by rewrite Ho, He.
Qed.

Lemma check_instance_descriptor t i s inst address e w1 content w2 :
  instances s !! i = Some inst ->
  inst !! "ths_address" = Some (VStr address) ->
  open_url ("http://" +:+ address) t (world s) = (Raised e, w1) ->
  proxy_failure e = true ->
  get_hidden_service_descriptor address w1 = (Ok content, w2) ->
  check_instance t i s =
    collect_circuits i
      (State w2
         (<[i := <["intro_pts" := VStr content]> (<["version" := unreachable]> inst)]>
            (instances s))
         (trace s ++ [EvOpen ("http://" +:+ address) t (Raised e);
                      EvSet i "version" unreachable;
                      EvGetDescriptor address (Ok content);
                      EvSet i "intro_pts" (VStr content)])).
Proof.
  intros Hi Ha Ho He Hd.
  assert (Hlt : i < length (instances s)) by (by eapply lookup_lt_Some).
  unfold check_instance, diagnose, probe, as_str.
  unfold try_except, bind, ret, get_instance, call_open, setitem,
    call_get_descriptor.
  rewrite Hi, Ha. cbn [world instances trace]. rewrite Ho, He.
  cbn [world instances trace]. rewrite Hd. cbn [world instances trace].
  rewrite (alter_at _ _ _ _ Hi).
  rewrite (alter_at _ _ _ (<["version" := unreachable]> inst))
    by (by rewrite list_lookup_insert_eq).
  rewrite list_insert_insert_eq. by rewrite <- !app_assoc.
Qed.

Lemma check_instance_unavailable t i s inst address e w1 w2 :
  instances s !! i = Some inst ->
  inst !! "ths_address" = Some (VStr address) ->
  open_url ("http://" +:+ address) t (world s) = (Raised e, w1) ->
  proxy_failure e = true ->
  get_hidden_service_descriptor address w1 = (Raised DescriptorUnavailable, w2) ->
  let inst' :=
    <["intro_pts" := descriptor_unavailable]> (<["version" := unreachable]> inst) in
  check_instance t i s =
    (Ok tt,
     State w2 (<[i := inst']> (instances s))
       (trace s ++ [EvOpen ("http://" +:+ address) t (Raised e);
                    EvSet i "version" unreachable;
                    EvGetDescriptor address (Raised DescriptorUnavailable);
                    EvSet i "intro_pts" descriptor_unavailable;
                    EvPrint inst'])).
Proof.
  intros Hi Ha Ho He Hd inst'.
  assert (Hlt : i < length (instances s)) by (by eapply lookup_lt_Some).
  unfold check_instance, diagnose, probe, print, as_str.
  unfold try_except, bind, ret, get_instance, call_open, setitem,
    call_get_descriptor, log.
  rewrite Hi, Ha. cbn [world instances trace]. rewrite Ho, He.
  cbn [world instances trace]. rewrite Hd.
  cbn [world instances trace descriptor_failure].
  rewrite (alter_at _ _ _ _ Hi).
  rewrite (alter_at _ _ _ (<["version" := unreachable]> inst))
    by (by rewrite list_lookup_insert_eq).
  rewrite list_insert_insert_eq, list_lookup_insert_eq by done.
  cbn [world instances trace]. by rewrite <- !app_assoc.
Qed.

Lemma check_instance_descriptor_error t i s inst address e w1 e' w2 :
  instances s !! i = Some inst ->
  inst !! "ths_address" = Some (VStr address) ->
  open_url ("http://" +:+ address) t (world s) = (Raised e, w1) ->
  proxy_failure e = true ->
  get_hidden_service_descriptor address w1 = (Raised e', w2) ->
  descriptor_failure e' = false ->
  check_instance t i s =
    (Raised e',
     State w2 (<[i := <["version" := unreachable]> inst]> (instances s))
       (trace s ++ [EvOpen ("http://" +:+ address) t (Raised e);
                    EvSet i "version" unreachable;
                    EvGetDescriptor address (Raised e')])).
Proof.
  intros Hi Ha Ho He Hd He'.
  unfold check_instance, diagnose, probe, as_str.
  unfold try_except, bind, ret, get_instance, call_open, setitem,
    call_get_descriptor.
  rewrite Hi, Ha. cbn [world instances trace]. rewrite Ho, He.
  cbn [world instances trace]. rewrite Hd, He'.
  rewrite (alter_at _ _ _ _ Hi). by rewrite <- !app_assoc.
Qed.

(** *** A step that completes *)

Lemma check_instance_completed t i s s' inst :
  instances s !! i = Some inst ->
  check_instance t i s = (Ok tt, s') ->
  (exists v, Text.all_class v = true
     /\ field_at (instances s') i "version" = Some (VStr v)
     /\ field_at (instances s') i "intro_pts" = inst !! "intro_pts")
  \/ (field_at (instances s') i "version" = Some unreachable
      /\ is_Some (field_at (instances s') i "intro_pts")).
Proof.
  intros Hi Hrun.
  assert (Hlt : i < length (instances s)) by (by eapply lookup_lt_Some).
  destruct (inst !! "ths_address") as [[address|l]|] eqn:Ha;
    [|rewrite (check_instance_no_address t i s inst) in Hrun by congruence; done..].
  destruct (open_url ("http://" +:+ address) t (world s)) as [[body|e] w1] eqn:Ho.
  - destruct (Text.search body) as [m|] eqn:Hs;
      [|by rewrite (check_instance_malformed _ _ _ _ _ _ _ Hi Ha Ho Hs) in Hrun].
    destruct (search_Some _ _ Hs) as (pre & rest & _ & Hm).
    destruct (match_here_Some _ _ Hm) as (run & post & _ & -> & Hne & Hrun' & _).
    pose proof (last_split_match run Hne Hrun') as Hl.
    rewrite (check_instance_version _ _ _ _ _ _ _ _ _ Hi Ha Ho Hs Hl) in Hrun.
    left. exists (Text.drop_last run). split; [by apply drop_last_class|].
    apply (f_equal snd) in Hrun. cbn [snd] in Hrun. subst s'.
    rewrite !collect_circuits_field by done. cbn [instances].
    rewrite !field_at_insert by done.
    by rewrite lookup_insert_eq, lookup_insert_ne.
  - destruct (proxy_failure e) eqn:He;
      [|by rewrite (check_instance_probe_error _ _ _ _ _ _ _ Hi Ha Ho He) in Hrun].
    destruct (get_hidden_service_descriptor address w1) as [[content|e'] w2] eqn:Hd.
    + rewrite (check_instance_descriptor _ _ _ _ _ _ _ _ _ Hi Ha Ho He Hd) in Hrun.
      right. apply (f_equal snd) in Hrun. cbn [snd] in Hrun. subst s'.
      rewrite !collect_circuits_field by done. cbn [instances].
      rewrite !field_at_insert by done.
      rewrite lookup_insert_eq, lookup_insert_ne, lookup_insert_eq by done.
      split; [done|by eexists].
    + destruct (descriptor_failure e') eqn:He';
        [|by rewrite (check_instance_descriptor_error _ _ _ _ _ _ _ _ _ Hi Ha Ho He Hd He') in Hrun].
      destruct e'; try done.
      rewrite (check_instance_unavailable _ _ _ _ _ _ _ _ Hi Ha Ho He Hd) in Hrun.
      right. injection Hrun as <-. cbn [instances].
      rewrite !field_at_insert by done.
      rewrite lookup_insert_eq, lookup_insert_ne, lookup_insert_eq by done.
      split; [done|by eexists].
Qed.

(** *** The loop over the records *)

Lemma for_each_app body l1 l2 (s : state W) :
  for_each body (l1 ++ l2) s = bind (for_each body l1) (fun _ => for_each body l2) s.
Proof.
  revert s. induction l1 as [|i l1 IH]; intros s; [done|].
  cbn [for_each app]. unfold bind.
  destruct (body i s) as [[[]|e] s1]; [|done].
  rewrite IH. done.
Qed.

Lemma for_each_length t l s :
  length (instances (for_each (check_instance t) l s).2) = length (instances s).
Proof. by destruct (preserves_for_each t l s) as (L & _). Qed.

(** Each record of a completed run is the one its own step left, and that
    step started from the record as it was given. *)
Lemma for_each_completed t l s s' i :
  NoDup l -> i ∈ l ->
  for_each (check_instance t) l s = (Ok tt, s') ->
  exists s1 s2,
    check_instance t i s1 = (Ok tt, s2)
    /\ instances s1 !! i = instances s !! i
    /\ instances s' !! i = instances s2 !! i.
Proof.
  revert s. induction l as [|j l IH]; intros s Hnd Hin Hrun.
  { by apply elem_of_nil in Hin. }
  apply NoDup_cons in Hnd as [Hj Hnd].
  cbn [for_each] in Hrun. unfold bind in Hrun.
  destruct (check_instance t j s) as [[[]|e] s1] eqn:Hstep; [|done].
  apply elem_of_cons in Hin as [->|Hin].
  - exists s, s1. split; [done|]. split; [done|].
    clear IH Hstep. revert s1 Hrun.
    induction l as [|k l IHl]; intros s1 Hrun.
    + by injection Hrun as <-.
    + apply not_elem_of_cons in Hj as [Hjk Hj].
      apply NoDup_cons in Hnd as [_ Hnd].
      cbn [for_each] in Hrun. unfold bind in Hrun.
      destruct (check_instance t k s1) as [[[]|e] s2] eqn:Hstep; [|done].
      rewrite (IHl Hj Hnd _ Hrun).
      destruct (preserves_check_instance t k s1) as (_ & O & _).
      rewrite Hstep in O. by apply O.
  - destruct (IH _ Hnd Hin Hrun) as (s2 & s3 & Hs & H1 & H2).
    exists s2, s3. split; [done|]. split; [|done].
    rewrite H1. destruct (preserves_check_instance t j s) as (_ & O & _).
    rewrite Hstep in O. apply O. intros ->. done.
Qed.
End MonitorFacts.

(** * Claims *)

Section Claims.
Context {W : Type} `{Backend W}.
Implicit Types (s : state W).

Lemma check_instances_unfold t s :
  check_instances t s =
    match for_each (check_instance t) (seq 0 (length (instances s))) s with
    | (Ok _, s') => (Ok (instances s'), s')
    | (Raised e, s') => (Raised e, s')
    end.
Proof. unfold check_instances, bind. by destruct (for_each _ _ _) as [[[]|] ?]. Qed.

(** A run whose loop completes returns the list it worked on. *)
Lemma check_instances_returns t s :
  (for_each (check_instance t) (seq 0 (length (instances s))) s).1 = Ok tt ->
  (check_instances t s).1 = Ok (instances (check_instances t s).2).
Proof.
  rewrite check_instances_unfold.
  by destruct (for_each _ _ s) as [[[]|e] s'].
Qed.

Lemma check_instances_completed t s out i :
  (check_instances t s).1 = Ok out ->
  i < length (instances s) ->
  exists s1 s2 inst0,
    instances s1 !! i = Some inst0
    /\ instances s !! i = Some inst0
    /\ check_instance t i s1 = (Ok tt, s2)
    /\ out !! i = instances s2 !! i.
Proof.
  rewrite check_instances_unfold.
  destruct (for_each _ _ s) as [[[]|e] s'] eqn:Hrun; [|done].
  cbn [fst]. intros [= <-] Hlt.
  destruct (for_each_completed t _ s s' i (NoDup_seq 0 (length (instances s))))
    as (s1 & s2 & Hs & H1 & H2); [apply elem_of_seq; lia|done|].
  destruct (lookup_lt_is_Some_2 _ _ Hlt) as [inst0 Hi].
  exists s1, s2, inst0. by rewrite H1.
Qed.

(** C1 (amended): on every record of a completed run that came without an
    [intro_pts] field, the field is present at the end exactly when
    [version] is ["unreachable"]. *)
Theorem intro_points_iff_unreachable t s out i inst0 :
  (check_instances t s).1 = Ok out ->
  instances s !! i = Some inst0 ->
  inst0 !! "intro_pts" = None ->
  is_Some (field_at out i "intro_pts")
  <-> field_at out i "version" = Some unreachable.
Proof.
  intros Hrun Hi Hnone.
  assert (Hlt : i < length (instances s)) by (by eapply lookup_lt_Some).
  destruct (check_instances_completed _ _ _ _ Hrun Hlt)
    as (s1 & s2 & inst1 & H1 & H0 & Hstep & H2).
  assert (inst1 = inst0) as -> by congruence.
  unfold field_at. rewrite H2.
  destruct (check_instance_completed _ _ _ _ _ H1 Hstep)
    as [(v & Hv & Hver & Hip)|[Hver Hip]]; unfold field_at in Hver, Hip.
  - rewrite Hip, Hnone, Hver. split; [by intros [? ?]|].
    intros [= ->]. by apply class_not_unreachable in Hv.
  - by rewrite Hver.
Qed.

(** X16: every record of a completed run has [version] set, and it holds
    either ["unreachable"] or a string in which every character is a digit
    or a full stop. *)
Theorem version_set t s out i :
  (check_instances t s).1 = Ok out ->
  i < length (instances s) ->
  exists v, field_at out i "version" = Some (VStr v)
    /\ (v = "unreachable" \/ Text.all_class v = true).
Proof.
  intros Hrun Hlt.
  destruct (check_instances_completed _ _ _ _ Hrun Hlt)
    as (s1 & s2 & inst1 & H1 & H0 & Hstep & H2).
  unfold field_at. rewrite H2.
  destruct (check_instance_completed _ _ _ _ _ H1 Hstep)
    as [(v & Hv & Hver & Hip)|[Hver Hip]]; unfold field_at in Hver.
  - exists v. auto.
  - exists "unreachable". auto.
Qed.

Lemma for_each_step (body : nat -> M W unit) i rest s s1 :
  body i s = (Ok tt, s1) ->
  for_each body (i :: rest) s = for_each body rest s1.
Proof. intros Hb. cbn [for_each]. unfold bind. by rewrite Hb. Qed.

Lemma for_each_abort (body : nat -> M W unit) i rest s e s1 :
  body i s = (Raised e, s1) ->
  for_each body (i :: rest) s = (Raised e, s1).
Proof. intros Hb. cbn [for_each]. unfold bind. by rewrite Hb. Qed.

(** The records a loop does not visit are left alone. *)
Lemma for_each_untouched t l s i :
  i ∉ l -> instances (for_each (check_instance t) l s).2 !! i = instances s !! i.
Proof.
  revert s. induction l as [|j l IH]; intros s Hi; [done|].
  apply not_elem_of_cons in Hi as [Hij Hi].
  cbn [for_each]. unfold bind.
  destruct (preserves_check_instance t j s) as (_ & O & _).
  destruct (check_instance t j s) as [[[]|e] s1]; cbn [snd] in *.
  - rewrite IH by done. by apply O.
  - by apply O.
Qed.

Lemma proxy_failure_cases e :
  e = SOCKS5Error \/ e = GeneralProxyError \/ e = URLError ->
  proxy_failure e = true.
Proof. by intros [->|[->| ->]]. Qed.

(** C3 (amended): a probe that fails with a SOCKS5 error, a general proxy
    error or a URL error makes the checker set [version] to
    ["unreachable"] and then ask the controller for the descriptor of that
    record's address, whatever the controller answers.  The loop goes on
    with the next record when the controller answers the diagnosis without
    failing -- the descriptor is unavailable, or it is delivered and the
    circuits are enumerated and closed; when it fails, its exception ends
    the loop at this record. *)
Theorem proxy_failure_diagnosed t i s inst address e w1 :
  instances s !! i = Some inst ->
  inst !! "ths_address" = Some (VStr address) ->
  open_url ("http://" +:+ address) t (world s) = (Raised e, w1) ->
  e = SOCKS5Error \/ e = GeneralProxyError \/ e = URLError ->
  let r := (get_hidden_service_descriptor address w1).1 in
  let s' := (check_instance t i s).2 in
  (exists tl,
      trace s' = trace s ++ [EvOpen ("http://" +:+ address) t (Raised e);
                             EvSet i "version" (VStr "unreachable");
                             EvGetDescriptor address r] ++ tl)
  /\ field_at (instances s') i "version" = Some (VStr "unreachable")
  /\ (diagnosis_succeeds address w1 ->
      forall rest,
        for_each (check_instance t) (i :: rest) s
        = for_each (check_instance t) rest s')
  /\ (~ diagnosis_succeeds address w1 ->
      exists e', forall rest,
        for_each (check_instance t) (i :: rest) s = (Raised e', s')).
Proof.
  intros Hi Ha Ho He%proxy_failure_cases r s'. subst r s'.
  assert (Hlt : i < length (instances s)) by (by eapply lookup_lt_Some).
  unfold diagnosis_succeeds.
  destruct (get_hidden_service_descriptor address w1) as [[content|e'] w2] eqn:Hd.
  - pose proof (check_instance_descriptor _ _ _ _ _ _ _ _ _ Hi Ha Ho He Hd) as Hstep.
    unfold unreachable in Hstep. rewrite Hstep.
    set (s3 := State w2 _ _). cbn [fst].
    assert (Hi3 : instances s3 !! i
                  = Some (<["intro_pts" := VStr content]>
                            (<["version" := VStr "unreachable"]> inst))).
    { subst s3. cbn [instances]. by apply list_lookup_insert_eq. }
    split; [|split; [|split]].
    + destruct (preserves_collect_circuits i s3) as (_ & _ & _ & _ & [tl Htl]).
      exists (EvSet i "intro_pts" (VStr content) :: tl). rewrite Htl.
      subst s3. cbn [trace]. by rewrite <- !app_assoc.
    + rewrite collect_circuits_field by done. subst s3. cbn [instances].
      rewrite field_at_insert by done.
      by rewrite lookup_insert_ne, lookup_insert_eq.
    + unfold collection_succeeds. intros Hc rest.
      destruct (get_circuits w2) as [[cs|e'] w3] eqn:Hg; [|done].
      destruct Hc as [w4 Hc].
      apply for_each_step. rewrite Hstep. fold s3.
      erewrite (collect_circuits_spec i s3 _ (VStr "unreachable") cs w3 w4);
        [done|exact Hi3| |done|done].
      by rewrite lookup_insert_ne, lookup_insert_eq.
    + unfold collection_succeeds. intros Hc.
      destruct (get_circuits w2) as [[cs|e'] w3] eqn:Hg.
      * destruct (close_all cs w3) as [w4|] eqn:Hcl; [by destruct Hc|].
        destruct (close_all_None _ _ Hcl)
          as (l1 & c & l2 & w' & e' & w'' & -> & Hl1 & Hc').
        exists e'. intros rest. apply for_each_abort. rewrite Hstep. fold s3.
        by rewrite (collect_circuits_close_fails i s3 l1 c l2 w3 w' e' w'').
      * exists e'. intros rest. apply for_each_abort. rewrite Hstep. fold s3.
        by rewrite (collect_circuits_get_fails i s3 e' w3).
  - destruct (descriptor_failure e') eqn:He'.
    + destruct e'; try done.
      pose proof (check_instance_unavailable _ _ _ _ _ _ _ _ Hi Ha Ho He Hd) as Hstep.
      cbv zeta in Hstep. unfold unreachable, descriptor_unavailable in Hstep.
      rewrite Hstep.
      cbn [fst snd trace instances]. split; [|split; [|split]].
      * by eexists [_; _].
      * rewrite field_at_insert by done.
        by rewrite lookup_insert_ne, lookup_insert_eq.
      * intros _ rest. apply for_each_step. by rewrite Hstep.
      * by intros [].
    + pose proof (check_instance_descriptor_error _ _ _ _ _ _ _ _ _ Hi Ha Ho He Hd He')
        as Hstep.
      unfold unreachable in Hstep. rewrite Hstep.
      cbn [fst snd trace instances]. split; [|split; [|split]].
      * exists []. by rewrite app_nil_r.
      * rewrite field_at_insert by done. by rewrite lookup_insert_eq.
      * by destruct e'.
      * intros _. exists e'. intros rest. by apply for_each_abort.
Qed.

(** C4: when the probe has failed at the proxy and the descriptor fetch
    raises [DescriptorUnavailable], the checker stores the string
    ["descriptor unavailable"] in [intro_pts], prints the record as it
    then stands and goes to the next record: no circuit is enumerated or
    closed, and [intro_circs] and [rend_circs] stay as they were (absent,
    when they were absent). *)
Theorem descriptor_unavailable_recorded t i s inst address e w1 w2 :
  instances s !! i = Some inst ->
  inst !! "ths_address" = Some (VStr address) ->
  open_url ("http://" +:+ address) t (world s) = (Raised e, w1) ->
  e = SOCKS5Error \/ e = GeneralProxyError \/ e = URLError ->
  get_hidden_service_descriptor address w1 = (Raised DescriptorUnavailable, w2) ->
  let inst' :=
    <["intro_pts" := VStr "descriptor unavailable"]>
      (<["version" := VStr "unreachable"]> inst) in
  let s' :=
    State w2 (<[i := inst']> (instances s))
      (trace s ++ [EvOpen ("http://" +:+ address) t (Raised e);
                   EvSet i "version" (VStr "unreachable");
                   EvGetDescriptor address (Raised DescriptorUnavailable);
                   EvSet i "intro_pts" (VStr "descriptor unavailable");
                   EvPrint inst']) in
  check_instance t i s = (Ok tt, s')
  /\ field_at (instances s') i "intro_pts" = Some (VStr "descriptor unavailable")
  /\ field_at (instances s') i "intro_circs" = inst !! "intro_circs"
  /\ field_at (instances s') i "rend_circs" = inst !! "rend_circs"
  /\ (forall rest,
        for_each (check_instance t) (i :: rest) s
        = for_each (check_instance t) rest s').
Proof.
  intros Hi Ha Ho He%proxy_failure_cases Hd inst' s'.
  assert (Hlt : i < length (instances s)) by (by eapply lookup_lt_Some).
  pose proof (check_instance_unavailable _ _ _ _ _ _ _ _ Hi Ha Ho He Hd) as Hstep.
  cbv zeta in Hstep. unfold unreachable, descriptor_unavailable in Hstep.
  fold inst' in Hstep. fold s' in Hstep.
  split; [exact Hstep|].
  subst s'. cbn [instances]. rewrite !field_at_insert by done. subst inst'.
  split; [apply lookup_insert_eq|].
  split; [by rewrite !lookup_insert_ne|].
  split; [by rewrite !lookup_insert_ne|].
  intros rest. by apply for_each_step.
Qed.

(** C7: a response without the version pattern makes the run stop with
    the [AttributeError] of [.group(0)]: nothing is done after the probe,
    and every record is left as it stood when this probe began, so the
    records completed before keep all their fields. *)
Theorem malformed_response_propagates t s i inst address body w :
  (for_each (check_instance t) (seq 0 i) s).1 = Ok tt ->
  let s1 := (for_each (check_instance t) (seq 0 i) s).2 in
  instances s !! i = Some inst ->
  inst !! "ths_address" = Some (VStr address) ->
  open_url ("http://" +:+ address) t (world s1) = (Ok body, w) ->
  Text.search body = None ->
  check_instances t s =
    (Raised AttributeError,
     State w (instances s1)
           (trace s1 ++ [EvOpen ("http://" +:+ address) t (Ok body)]))
  /\ instances s1 !! i = Some inst.
Proof.
  intros Hpre s1 Hi Ha Ho Hs.
  assert (Hlt : i < length (instances s)) by (by eapply lookup_lt_Some).
  assert (Hi1 : instances s1 !! i = Some inst).
  { rewrite <- Hi. apply (for_each_untouched t (seq 0 i) s i).
    rewrite elem_of_seq. lia. }
  split; [|done]. rewrite check_instances_unfold.
  replace (length (instances s)) with (i + S (length (instances s) - S i)) by lia.
  rewrite seq_app, for_each_app. unfold bind at 1.
  destruct (for_each (check_instance t) (seq 0 i) s) as [[[]|e] s1'] eqn:Hrun;
    [|done].
  cbn [snd] in s1. subst s1.
  cbn [seq for_each plus]. unfold bind.
  by rewrite (check_instance_malformed _ _ _ _ _ _ _ Hi1 Ha Ho Hs).
Qed.

(** C8: [check_instances] keeps the list as long as it was and, in every
    record, every field other than [version], [intro_pts], [intro_circs]
    and [rend_circs] as it was -- [organization], [landing_page] and
    [ths_address] among them; no field is removed, and what is returned
    is the list itself. *)
Theorem check_instances_frame t s :
  let r := check_instances t s in
  length (instances r.2) = length (instances s)
  /\ (forall j k, k ∉ result_keys ->
        field_at (instances r.2) j k = field_at (instances s) j k)
  /\ (forall j,
        field_at (instances r.2) j "organization" = field_at (instances s) j "organization"
        /\ field_at (instances r.2) j "landing_page" = field_at (instances s) j "landing_page"
        /\ field_at (instances r.2) j "ths_address" = field_at (instances s) j "ths_address")
  /\ (forall j k, is_Some (field_at (instances s) j k) ->
        is_Some (field_at (instances r.2) j k))
  /\ (forall out, r.1 = Ok out -> out = instances r.2).
Proof.
  intros r. subst r. rewrite check_instances_unfold.
  pose proof (preserves_for_each t (seq 0 (length (instances s))) s) as (L & F & D & _).
  destruct (for_each _ _ s) as [[[]|e] s'] eqn:Hrun; cbn [fst snd] in *.
  - repeat split; auto; try congruence;
      apply F; unfold result_keys; rewrite !not_elem_of_cons;
      repeat split; try done; apply not_elem_of_nil.
  - repeat split; auto; try congruence;
      apply F; unfold result_keys; rewrite !not_elem_of_cons;
      repeat split; try done; apply not_elem_of_nil.
Qed.

(** C5 (amended): when no call of [close_circuit] fails, the circuit
    collection records one snapshot for each live circuit of purpose
    [HS_CLIENT_INTRO] in [intro_circs], holding the circuit's path, reason
    and remote reason under [path], [reason] and [remote_reason], and one
    for each of purpose [HS_CLIENT_REND] in [rend_circs], holding its
    path, state, reason and remote reason under [path], [state],
    [reason] and [remote_reason], in the order of the enumeration; each
    circuit is closed before the next is looked at; no circuit gives two
    snapshots.  (With one circuit of each purpose each list gets one
    entry.) *)
Theorem circuits_recorded_and_closed i s inst cs w1 w2 :
  instances s !! i = Some inst ->
  get_circuits (world s) = (Ok cs, w1) ->
  close_all cs w1 = Some w2 ->
  let is_intro c := bool_decide (purpose c = Some "HS_CLIENT_INTRO") in
  let is_rend c := bool_decide (purpose c = Some "HS_CLIENT_REND") in
  let intro_of c : snapshot :=
    {[ "path" := FPath (path c);
       "reason" := FText (reason c);
       "remote_reason" := FText (remote_reason c) ]} in
  let rend_of c : snapshot :=
    {[ "path" := FPath (path c);
       "state" := FText (hs_state c);
       "reason" := FText (reason c);
       "remote_reason" := FText (remote_reason c) ]} in
  let closed l := map (fun c => EvCloseCircuit (circ_id c) (Ok tt)) l in
  let intro_circs := VCircs (map intro_of (List.filter is_intro cs)) in
  let rend_circs := VCircs (map rend_of (List.filter is_rend cs)) in
  let s' := (collect_circuits i s).2 in
  field_at (instances s') i "intro_circs" = Some intro_circs
  /\ field_at (instances s') i "rend_circs" = Some rend_circs
  /\ world s' = w2
  /\ (exists tl,
        trace s' = trace s ++ [EvGetCircuits (Ok cs)] ++ closed cs
                     ++ [EvSet i "intro_circs" intro_circs;
                         EvSet i "rend_circs" rend_circs] ++ tl
        /\ close_calls tl = [])
  /\ length (List.filter is_intro cs) + length (List.filter is_rend cs) <= length cs
  /\ (forall l1 l2 acc (s0 : state W) w,
        cs = l1 ++ l2 ->
        close_all l1 (world s0) = Some w ->
        collect cs acc s0 =
          collect l2
            (acc.1 ++ map intro_of (List.filter is_intro l1),
             acc.2 ++ map rend_of (List.filter is_rend l1))
            (State w (instances s0) (trace s0 ++ closed l1))).
Proof.
  intros Hi Hg Hc is_intro is_rend intro_of rend_of closed intro_circs rend_circs s'.
  assert (Hlt : i < length (instances s)) by (by eapply lookup_lt_Some).
  destruct (collect_circuits_state i s inst cs w1 w2 Hi Hg Hc) as (tl & Htl & Hs').
  cbv zeta in Hs', Htl. rewrite !filter_purpose in Hs', Htl.
  subst s'. rewrite Hs'. cbn [instances trace world].
  rewrite !field_at_insert by done.
  split; [by rewrite lookup_insert_ne, lookup_insert_eq|].
  split; [by rewrite lookup_insert_eq|].
  split; [done|].
  split; [exists tl; split; [done|by destruct Htl as [->| ->]]|].
  split.
  - pose proof (purposes_disjoint cs) as Hd. by rewrite !filter_purpose in Hd.
  - intros l1 l2 acc s0 w -> Hw.
    rewrite collect_app. unfold bind. rewrite (collect_spec l1 acc s0 w Hw).
    by rewrite !filter_purpose.
Qed.

(** C9 (amended): the circuit collection calls [close_circuit] on the
    circuits the enumeration returned one after the other, in order and
    whatever their purpose, taking each reply before the next call; a
    circuit that is neither [HS_CLIENT_INTRO] nor [HS_CLIENT_REND] is
    closed too and leaves no entry in either list.  When no call fails,
    every circuit is closed, once; when the call fails on a circuit, its
    exception ends the collection: the circuits after it are not closed
    and the record is left as it was. *)
Theorem every_circuit_closed i s inst cs w1 :
  instances s !! i = Some inst ->
  get_circuits (world s) = (Ok cs, w1) ->
  let is_intro c := bool_decide (purpose c = Some "HS_CLIENT_INTRO") in
  let is_rend c := bool_decide (purpose c = Some "HS_CLIENT_REND") in
  let intro_of c : snapshot :=
    {[ "path" := FPath (path c);
       "reason" := FText (reason c);
       "remote_reason" := FText (remote_reason c) ]} in
  let rend_of c : snapshot :=
    {[ "path" := FPath (path c);
       "state" := FText (hs_state c);
       "reason" := FText (reason c);
       "remote_reason" := FText (remote_reason c) ]} in
  let closed l := map (fun c => EvCloseCircuit (circ_id c) (Ok tt)) l in
  let s' := (collect_circuits i s).2 in
  (forall w2,
      close_all cs w1 = Some w2 ->
      world s' = w2
      /\ (exists tl,
            trace s' = trace s ++ [EvGetCircuits (Ok cs)] ++ closed cs ++ tl
            /\ close_calls tl = [])
      /\ close_calls (drop (length (trace s)) (trace s')) = map circ_id cs
      /\ (forall l1 c l2,
            cs = l1 ++ c :: l2 -> is_intro c = false -> is_rend c = false ->
            field_at (instances s') i "intro_circs"
            = Some (VCircs (map intro_of (List.filter is_intro (l1 ++ l2))))
            /\ field_at (instances s') i "rend_circs"
               = Some (VCircs (map rend_of (List.filter is_rend (l1 ++ l2))))))
  /\ (forall l1 c l2 w e w',
        cs = l1 ++ c :: l2 ->
        close_all l1 w1 = Some w ->
        close_circuit (circ_id c) w = (Raised e, w') ->
        collect_circuits i s =
          (Raised e,
           State w' (instances s)
             (trace s ++ [EvGetCircuits (Ok cs)] ++ closed l1
                ++ [EvCloseCircuit (circ_id c) (Raised e)]))).
Proof.
  intros Hi Hg is_intro is_rend intro_of rend_of closed s'.
  assert (Hlt : i < length (instances s)) by (by eapply lookup_lt_Some).
  split.
  - intros w2 Hc.
    destruct (collect_circuits_state i s inst cs w1 w2 Hi Hg Hc) as (tl & Htl & Hs').
    cbv zeta in Hs', Htl. rewrite !filter_purpose in Hs', Htl.
    subst s'. rewrite Hs'. cbn [instances trace world].
    assert (Hcalls : forall l, close_calls (closed l) = map circ_id l).
    { induction l as [|c l IH]; [done|]. cbn. by rewrite <- IH. }
    assert (Htl' : close_calls tl = []) by (by destruct Htl as [->| ->]).
    split; [done|]. split; [|split].
    + eexists. split; [reflexivity|]. by rewrite close_calls_app, Htl'.
    + rewrite drop_app_length, !close_calls_app.
      fold (closed cs). rewrite Hcalls, Htl'. cbn. by rewrite app_nil_r.
    + intros l1 c l2 -> Hintro Hrend.
      rewrite !field_at_insert by done.
      rewrite lookup_insert_ne, !lookup_insert_eq by done.
      subst is_intro is_rend. cbn beta in Hintro, Hrend.
      rewrite !List.filter_app. cbn [List.filter].
      by rewrite Hintro, Hrend.
  - intros l1 c l2 w e w' -> Hl1 Hc.
    by apply (collect_circuits_close_fails i s l1 c l2 w1 w e w').
Qed.

(** C6 (amended): when the leftmost match of the pattern in the response
    is ["Powered by SecureDrop 2.5.0."], that is, the pattern matches
    nowhere before this occurrence and no digit or dot follows it, the
    checker sets [version] to ["2.5.0"]. *)
Theorem banner_version_recorded t i s inst address pre post w :
  instances s !! i = Some inst ->
  inst !! "ths_address" = Some (VStr address) ->
  open_url ("http://" +:+ address) t (world s)
  = (Ok (pre +:+ "Powered by SecureDrop 2.5.0." +:+ post), w) ->
  Text.no_match_before pre ("Powered by SecureDrop 2.5.0." +:+ post) = true ->
  Text.stops_run post = true ->
  field_at (instances (check_instance t i s).2) i "version" = Some (VStr "2.5.0").
Proof.
  intros Hi Ha Ho Hpre Hpost.
  apply (recorded_version t i s inst address _ w
           (Text.banner +:+ "2.5.0.") "2.5.0." Hi Ha Ho).
  - change ("Powered by SecureDrop 2.5.0." +:+ post)
      with (Text.banner +:+ "2.5.0." +:+ post) in *.
    by apply search_app.
  - by apply last_split_match.
Qed.

(** C10: the recorded version is the run of digits and dots that follows
    ["Powered by SecureDrop "] at the leftmost match, less its last
    character, whatever that character is: a run that does not end with
    a full stop loses its last digit. *)
Theorem version_drops_last_character t i s inst address pre run post w :
  instances s !! i = Some inst ->
  inst !! "ths_address" = Some (VStr address) ->
  open_url ("http://" +:+ address) t (world s)
  = (Ok (pre +:+ Text.banner +:+ run +:+ post), w) ->
  Text.no_match_before pre (Text.banner +:+ run +:+ post) = true ->
  run <> "" ->
  Text.all_class run = true ->
  Text.stops_run post = true ->
  field_at (instances (check_instance t i s).2) i "version"
  = Some (VStr (Text.drop_last run))
  /\ (forall r d, run = r +:+ String d "" ->
        field_at (instances (check_instance t i s).2) i "version" = Some (VStr r)).
Proof.
  intros Hi Ha Ho Hpre Hne Hrun Hpost.
  assert (Hv : field_at (instances (check_instance t i s).2) i "version"
               = Some (VStr (Text.drop_last run))).
  { apply (recorded_version t i s inst address _ w (Text.banner +:+ run) run Hi Ha Ho).
    - by apply search_app.
    - by apply last_split_match. }
  split; [done|]. intros r d ->. by rewrite Hv, drop_last_snoc.
Qed.
End Claims.

Lemma intro_points_iff_unreachable_witness :
  let r := check_instances 30 diagnosed_run in
  let out := instances r.2 in
  r.1 = Ok out
  /\ (is_Some (field_at out 0 "intro_pts")
      <-> field_at out 0 "version" = Some unreachable).
Proof.
  assert (Hrun : (check_instances 30 diagnosed_run).1
                 = Ok (instances (check_instances 30 diagnosed_run).2)).
  { apply check_instances_returns. vm_compute. reflexivity. }
  split; [exact Hrun|].
  apply (intro_points_iff_unreachable 30 diagnosed_run _ 0 example_entry Hrun).
  - reflexivity.
  - vm_compute. reflexivity.
Defined.

Lemma intro_points_counterexample :
  let r := check_instances 30 unavailable_run in
  exists out,
    r.1 = Ok out
    /\ ~ (is_Some (field_at out 0 "intro_pts")
          <-> field_at out 0 "version" = Some unreachable
              /\ fetch_unavailable (trace r.2) "examplepress.onion" = false).
Proof.
  exists (instances (check_instances 30 unavailable_run).2).
  split; [apply check_instances_returns; vm_compute; reflexivity|].
  assert (Hf : fetch_unavailable (trace (check_instances 30 unavailable_run).2)
                 "examplepress.onion" = true) by (vm_compute; reflexivity).
  assert (Hp : field_at (instances (check_instances 30 unavailable_run).2) 0 "intro_pts"
               = Some descriptor_unavailable) by (vm_compute; reflexivity).
  intros [Hpresent _]. destruct Hpresent as [_ Hfetch].
  - rewrite Hp. by eexists.
  - cbv zeta in Hfetch. congruence.
Qed.

Lemma version_set_witness :
  let r := check_instances 30 (answered_run "<p>Powered by SecureDrop 2.5.0.</p>") in
  let out := instances r.2 in
  r.1 = Ok out
  /\ exists v, field_at out 0 "version" = Some (VStr v)
       /\ (v = "unreachable" \/ Text.all_class v = true).
Proof.
  assert (Hrun : (check_instances 30 (answered_run "<p>Powered by SecureDrop 2.5.0.</p>")).1
                 = Ok (instances (check_instances 30 (answered_run "<p>Powered by SecureDrop 2.5.0.</p>")).2)).
  { apply check_instances_returns. vm_compute. reflexivity. }
  split; [exact Hrun|].
  apply (version_set 30 (answered_run "<p>Powered by SecureDrop 2.5.0.</p>") _ 0 Hrun).
  simpl. lia.
Defined.

(** C2: on a response in which a single digit follows the banner, as in
    ["<p>Powered by SecureDrop 2</p>"], the run completes and the record's
    [version] is the empty string: the last character dropped was the
    digit. *)
Theorem version_empty_on_single_digit :
  let r := check_instances 30 (answered_run "<p>Powered by SecureDrop 2</p>") in
  exists out,
    r.1 = Ok out /\ field_at out 0 "version" = Some (VStr "").
Proof.
  exists (instances (check_instances 30 (answered_run "<p>Powered by SecureDrop 2</p>")).2).
  split; [apply check_instances_returns|]; vm_compute; reflexivity.
Qed.

Lemma proxy_failure_diagnosed_witness :
  let s' := (check_instance 30 0 diagnosed_run).2 in
  (exists tl,
      trace s' = trace diagnosed_run
                 ++ [EvOpen "http://examplepress.onion" 30 (Raised SOCKS5Error);
                     EvSet 0 "version" (VStr "unreachable");
                     EvGetDescriptor "examplepress.onion" (Ok "intro-point ab12")]
                 ++ tl)
  /\ field_at (instances s') 0 "version" = Some (VStr "unreachable")
  /\ (forall rest,
        for_each (check_instance 30) (0 :: rest) diagnosed_run
        = for_each (check_instance 30) rest s').
Proof.
  destruct (proxy_failure_diagnosed 30 0 diagnosed_run example_entry
              "examplepress.onion" SOCKS5Error
              [RDescriptor (Ok "intro-point ab12"); RCircuits (Ok [])])
    as (Htrace & Hversion & Hnext & _).
  - reflexivity.
  - vm_compute. reflexivity.
  - reflexivity.
  - by left.
  - split; [exact Htrace|]. split; [exact Hversion|].
    apply Hnext. vm_compute. by eexists.
Defined.

Lemma proxy_failure_counterexample :
  let r := check_instances 30 abandoned_run in
  open_url "http://examplepress.onion" 30 (world abandoned_run)
  = (Raised URLError, [RDescriptor (Raised (OtherError "ControllerError"))])
  /\ r.1 = Raised (OtherError "ControllerError")
  /\ probes (trace r.2) = [("http://examplepress.onion", 30)]
  /\ field_at (instances r.2) 0 "version" = Some (VStr "unreachable")
  /\ field_at (instances r.2) 1 "version" = None.
Proof. cbv zeta. repeat split; vm_compute; reflexivity. Qed.

Lemma descriptor_unavailable_recorded_witness :
  let inst' :=
    <["intro_pts" := VStr "descriptor unavailable"]>
      (<["version" := VStr "unreachable"]> example_entry) in
  let s' :=
    State [] (<[0 := inst']> (instances unavailable_run))
      (trace unavailable_run
       ++ [EvOpen "http://examplepress.onion" 30 (Raised SOCKS5Error);
           EvSet 0 "version" (VStr "unreachable");
           EvGetDescriptor "examplepress.onion" (Raised DescriptorUnavailable);
           EvSet 0 "intro_pts" (VStr "descriptor unavailable");
           EvPrint inst']) in
  check_instance 30 0 unavailable_run = (Ok tt, s')
  /\ field_at (instances s') 0 "intro_pts" = Some (VStr "descriptor unavailable")
  /\ field_at (instances s') 0 "intro_circs" = None
  /\ field_at (instances s') 0 "rend_circs" = None.
Proof.
  destruct (descriptor_unavailable_recorded 30 0 unavailable_run example_entry
              "examplepress.onion" SOCKS5Error
              [RDescriptor (Raised DescriptorUnavailable)] [])
    as (Hrun & Hpts & Hintro & Hrend & _).
  - reflexivity.
  - vm_compute. reflexivity.
  - reflexivity.
  - by left.
  - reflexivity.
  - cbv zeta in *. split; [exact Hrun|]. split; [exact Hpts|].
    split; (etransitivity; [eassumption|vm_compute; reflexivity]).
Defined.

Lemma circuits_recorded_and_closed_witness :
  let s' := (collect_circuits 0 circuits_run).2 in
  field_at (instances s') 0 "intro_circs"
  = Some (VCircs [ {[ "path" := FPath [("A1B2", Some "relay1"); ("C3D4", Some "relay2")];
                      "reason" := FText (Some "TIMEOUT");
                      "remote_reason" := FText None ]} ])
  /\ field_at (instances s') 0 "rend_circs"
     = Some (VCircs [ {[ "path" := FPath [("E5F6", Some "relay3")];
                         "state" := FText (Some "HSCR_CONNECTING");
                         "reason" := FText None;
                         "remote_reason" := FText (Some "DESTROYED") ]} ])
  /\ world s' = []
  /\ exists tl,
       trace s' = trace circuits_run
                  ++ [EvGetCircuits (Ok [intro_circuit; general_circuit; rend_circuit])]
                  ++ [EvCloseCircuit "7" (Ok tt); EvCloseCircuit "9" (Ok tt);
                      EvCloseCircuit "8" (Ok tt)]
                  ++ tl
       /\ close_calls tl = [].
Proof.
  destruct (circuits_recorded_and_closed 0 circuits_run
              (<["version" := VStr "2.5.0"]> example_entry)
              [intro_circuit; general_circuit; rend_circuit]
              [RClose (Ok tt); RClose (Ok tt); RClose (Ok tt)] [])
    as (Hintro & Hrend & Hworld & (tl & Htrace & Htl) & _).
  - reflexivity.
  - reflexivity.
  - reflexivity.
  - split; [exact Hintro|]. split; [exact Hrend|]. split; [exact Hworld|].
    eexists. split; [exact Htrace|]. exact Htl.
Defined.

Lemma circuits_recorded_counterexample :
  let r := collect_circuits 0 failing_close_run in
  get_circuits (world failing_close_run)
  = (Ok [intro_circuit; general_circuit; rend_circuit],
     [RClose (Ok tt); RClose (Raised (OtherError "InvalidRequest"))])
  /\ purpose intro_circuit = Some "HS_CLIENT_INTRO"
  /\ purpose rend_circuit = Some "HS_CLIENT_REND"
  /\ r.1 = Raised (OtherError "InvalidRequest")
  /\ field_at (instances r.2) 0 "intro_circs" = None
  /\ field_at (instances r.2) 0 "rend_circs" = None.
Proof. cbv zeta. repeat split; vm_compute; reflexivity. Qed.

Lemma every_circuit_closed_witness :
  (let s' := (collect_circuits 0 circuits_run).2 in
   world s' = []
   /\ close_calls (drop (length (trace circuits_run)) (trace s')) = ["7"; "9"; "8"]
   /\ field_at (instances s') 0 "intro_circs"
      = Some (VCircs [ {[ "path" := FPath [("A1B2", Some "relay1"); ("C3D4", Some "relay2")];
                          "reason" := FText (Some "TIMEOUT");
                          "remote_reason" := FText None ]} ])
   /\ field_at (instances s') 0 "rend_circs"
      = Some (VCircs [ {[ "path" := FPath [("E5F6", Some "relay3")];
                          "state" := FText (Some "HSCR_CONNECTING");
                          "reason" := FText None;
                          "remote_reason" := FText (Some "DESTROYED") ]} ]))
  /\ collect_circuits 0 failing_close_run
     = (Raised (OtherError "InvalidRequest"),
        State [] (instances failing_close_run)
          (trace failing_close_run
           ++ [EvGetCircuits (Ok [intro_circuit; general_circuit; rend_circuit])]
           ++ [EvCloseCircuit "7" (Ok tt)]
           ++ [EvCloseCircuit "9" (Raised (OtherError "InvalidRequest"))])).
Proof.
  split.
  - destruct (every_circuit_closed 0 circuits_run
                (<["version" := VStr "2.5.0"]> example_entry)
                [intro_circuit; general_circuit; rend_circuit]
                [RClose (Ok tt); RClose (Ok tt); RClose (Ok tt)])
      as [Hclosed _].
    + reflexivity.
    + reflexivity.
    + destruct (Hclosed [] eq_refl) as (Hworld & _ & Hcalls & Hskipped).
      split; [exact Hworld|]. split; [exact Hcalls|].
      apply (Hskipped [intro_circuit] general_circuit [rend_circuit]); reflexivity.
  - destruct (every_circuit_closed 0 failing_close_run
                (<["version" := VStr "2.5.0"]> example_entry)
                [intro_circuit; general_circuit; rend_circuit]
                [RClose (Ok tt); RClose (Raised (OtherError "InvalidRequest"))])
      as [_ Hfails].
    + reflexivity.
    + reflexivity.
    + apply (Hfails [intro_circuit] general_circuit [rend_circuit]
               [RClose (Raised (OtherError "InvalidRequest"))]
               (OtherError "InvalidRequest") []); reflexivity.
Defined.

Lemma every_circuit_closed_counterexample :
  let r := collect_circuits 0 failing_close_run in
  get_circuits (world failing_close_run)
  = (Ok [intro_circuit; general_circuit; rend_circuit],
     [RClose (Ok tt); RClose (Raised (OtherError "InvalidRequest"))])
  /\ circ_id rend_circuit = "8"
  /\ close_calls (trace r.2) = ["7"; "9"].
Proof. cbv zeta. repeat split; vm_compute; reflexivity. Qed.

Lemma banner_version_recorded_witness :
  field_at
    (instances (check_instance 30 0 (answered_run "<p>Powered by SecureDrop 2.5.0.</p>")).2)
    0 "version"
  = Some (VStr "2.5.0").
Proof.
  apply (banner_version_recorded 30 0
           (answered_run "<p>Powered by SecureDrop 2.5.0.</p>") example_entry
           "examplepress.onion" "<p>" "</p>" [RCircuits (Ok [])]).
  - reflexivity.
  - vm_compute. reflexivity.
  - reflexivity.
  - vm_compute. reflexivity.
  - reflexivity.
Defined.

Lemma banner_version_counterexample :
  let longer := "<p>" +:+ "Powered by SecureDrop 2.5.0." +:+ "1</p>" in
  let second := "<p>Powered by SecureDrop 1.8.2.</p>"
                +:+ "Powered by SecureDrop 2.5.0." +:+ "</p>" in
  field_at (instances (check_instances 30 (answered_run longer)).2) 0 "version"
  = Some (VStr "2.5.0.")
  /\ field_at (instances (check_instances 30 (answered_run second)).2) 0 "version"
     = Some (VStr "1.8.2")
  /\ field_at (instances (check_instances 30 (answered_run longer)).2) 0 "version"
     <> Some (VStr "2.5.0")
  /\ field_at (instances (check_instances 30 (answered_run second)).2) 0 "version"
     <> Some (VStr "2.5.0").
Proof.
  cbv zeta.
  assert (H1 : field_at (instances (check_instances 30
                 (answered_run ("<p>" +:+ "Powered by SecureDrop 2.5.0." +:+ "1</p>"))).2)
                 0 "version" = Some (VStr "2.5.0.")) by (vm_compute; reflexivity).
  assert (H2 : field_at (instances (check_instances 30
                 (answered_run ("<p>Powered by SecureDrop 1.8.2.</p>"
                                +:+ "Powered by SecureDrop 2.5.0." +:+ "</p>"))).2)
                 0 "version" = Some (VStr "1.8.2")) by (vm_compute; reflexivity).
  rewrite H1, H2. repeat split; congruence.
Qed.

Lemma malformed_response_propagates_witness :
  let s1 := (for_each (check_instance 30) (seq 0 1) malformed_run).2 in
  (check_instances 30 malformed_run =
     (Raised AttributeError,
      State [] (instances s1)
        (trace s1 ++ [EvOpen "http://otherdesk.onion" 30
                        (Ok "<html>502 Bad Gateway</html>")]))
   /\ instances s1 !! 1 = Some other_entry)
  /\ field_at (instances s1) 0 "version" = Some (VStr "2.5.0").
Proof.
  split.
  - apply (malformed_response_propagates 30 malformed_run 1 other_entry
             "otherdesk.onion" "<html>502 Bad Gateway</html>" []).
    + vm_compute. reflexivity.
    + reflexivity.
    + vm_compute. reflexivity.
    + vm_compute. reflexivity.
    + vm_compute. reflexivity.
  - vm_compute. reflexivity.
Defined.

Lemma version_drops_last_character_witness :
  field_at
    (instances (check_instance 30 0 (answered_run "<p>Powered by SecureDrop 2.5.0</p>")).2)
    0 "version"
  = Some (VStr "2.5.").
Proof.
  apply (version_drops_last_character 30 0
           (answered_run "<p>Powered by SecureDrop 2.5.0</p>") example_entry
           "examplepress.onion" "<p>" "2.5.0" "</p>" [RCircuits (Ok [])]).
  - reflexivity.
  - vm_compute. reflexivity.
  - reflexivity.
  - vm_compute. reflexivity.
  - discriminate.
  - reflexivity.
  - reflexivity.
Defined.

(** * Beyond the claims *)

(** ** Lines, fields and slices *)

Section LinesFacts.
Import Lines.

Lemma low_byte e :
  (nat_of_ascii e <? 128)%nat = true ->
  Ascii.eqb e "133" = false /\ Ascii.eqb e "128" = false
  /\ Ascii.eqb e "168" = false /\ Ascii.eqb e "169" = false.
Proof.
  destruct e as [[] [] [] [] [] [] [] []]; vm_compute; by repeat split.
Qed.

(** A byte below 128 after [l] does not complete a boundary begun in
    [l]. *)
Lemma boundary_app_low l e x :
  l <> "" -> boundary l = 0 -> (nat_of_ascii e <? 128)%nat = true ->
  boundary (l +:+ String e x) = 0.
Proof.
  intros Hne H0 (E133 & E128 & E168 & E169)%low_byte.
  destruct l as [|a l]; [done|]. rewrite append_cons.
  unfold boundary in *.
  destruct (Ascii.eqb a cr).
  { destruct l as [|b l]; [done|]. by destruct (Ascii.eqb b lf). }
  destruct (is_break a); [done|].
  destruct (Ascii.eqb a "194").
  { destruct l as [|b l]; [|done]. by rewrite append_nil, E133. }
  destruct (Ascii.eqb a "226"); [|done].
  destruct l as [|b [|c l]].
  - rewrite append_nil. destruct x; [done|]. by rewrite E128.
  - rewrite append_cons, append_nil. by rewrite E168, E169, andb_false_r.
  - done.
Qed.

Lemma splitlines_from_plain cur l :
  break_free l = true -> cur +:+ l <> "" -> splitlines_from 0 cur l = [cur +:+ l].
Proof.
  revert cur. induction l as [|a l IH]; intros cur Hl Hne.
  - rewrite append_nil_r in *. simpl. by destruct cur.
  - cbn [break_free] in Hl. apply andb_prop in Hl as [Ha%Nat.eqb_eq Hl].
    cbn [splitlines_from]. rewrite Ha.
    rewrite IH; [|done|].
    + by rewrite append_assoc.
    + rewrite append_assoc. by destruct cur.
Qed.

Lemma splitlines_from_eol cur l eol rest :
  break_free l = true ->
  eol = String lf "" \/ eol = String cr (String lf "") ->
  splitlines_from 0 cur (l +:+ eol +:+ rest)
  = (cur +:+ l) :: splitlines_from 0 "" rest.
Proof.
  intros Hl Heol. revert cur. induction l as [|a l IH]; intros cur.
  - rewrite append_nil, append_nil_r.
    destruct Heol as [-> | ->]; rewrite !append_cons, append_nil.
    + reflexivity.
    + reflexivity.
  - cbn [break_free] in Hl. apply andb_prop in Hl as [Ha%Nat.eqb_eq Hl].
    rewrite append_cons. cbn [splitlines_from].
    assert (Hb : boundary (String a (l +:+ eol +:+ rest)) = 0).
    { destruct Heol as [-> | ->].
      - by apply (boundary_app_low (String a l) lf rest).
      - by apply (boundary_app_low (String a l) cr (String lf rest)). }
    rewrite Hb, (IH Hl). by rewrite append_assoc.
Qed.

Lemma splitlines_join eol lines last tail :
  eol = String lf "" \/ eol = String cr (String lf "") ->
  Forall (fun l => break_free l = true) lines ->
  break_free last = true ->
  tail = eol \/ (tail = "" /\ last <> "") ->
  splitlines (join_lines eol lines +:+ last +:+ tail) = lines ++ [last].
Proof.
  intros Heol Hlines Hlast Htail. unfold splitlines.
  induction Hlines as [|l lines Hl _ IH].
  - cbn [join_lines app]. rewrite append_nil. destruct Htail as [-> | [-> Hne]].
    + rewrite <- (append_nil_r eol) at 1.
      by rewrite splitlines_from_eol.
    + rewrite append_nil_r. by apply splitlines_from_plain.
  - cbn [join_lines app]. rewrite !append_assoc.
    rewrite splitlines_from_eol by done. by rewrite IH.
Qed.

(** A byte below 128 that starts no boundary may follow a text without
    boundary. *)
Lemma break_free_app_low l e x :
  break_free l = true -> (nat_of_ascii e <? 128)%nat = true ->
  break_free (String e x) = true ->
  break_free (l +:+ String e x) = true.
Proof.
  intros Hl He Hx. induction l as [|a l IH]; [done|].
  cbn [break_free] in Hl. apply andb_prop in Hl as [Ha%Nat.eqb_eq Hl].
  rewrite append_cons. cbn [break_free]. rewrite (IH Hl), andb_true_r.
  apply Nat.eqb_eq. rewrite <- append_cons. by apply boundary_app_low.
Qed.

Lemma split_on_plain sep cur s :
  count_char sep s = 0 -> split_on sep cur s = [cur +:+ s].
Proof.
  revert cur. induction s as [|a s IH]; intros cur Hs.
  - by rewrite append_nil_r.
  - cbn [count_char] in Hs. cbn [split_on].
    destruct (Ascii.eqb a sep); [done|].
    rewrite IH by done. by rewrite append_assoc.
Qed.

Lemma split_on_field sep cur s rest :
  count_char sep s = 0 ->
  split_on sep cur (s +:+ String sep rest)
  = (cur +:+ s) :: split_on sep "" rest.
Proof.
  revert cur. induction s as [|a s IH]; intros cur Hs.
  - rewrite append_nil, append_nil_r. cbn [split_on]. by rewrite Ascii.eqb_refl.
  - cbn [count_char] in Hs. rewrite append_cons. cbn [split_on].
    destruct (Ascii.eqb a sep); [done|].
    rewrite IH by done. by rewrite append_assoc.
Qed.

Lemma split_on_length sep cur s :
  length (split_on sep cur s) = S (count_char sep s).
Proof.
  revert cur. induction s as [|a s IH]; intros cur; [done|].
  cbn [split_on count_char]. destruct (Ascii.eqb a sep); cbn [length]; by rewrite IH.
Qed.

Lemma plain_no_tab s : plain s = true -> count_char tab s = 0.
Proof. by intros [_ Ht%Nat.eqb_eq]%andb_prop. Qed.

Lemma plain_break_free s : plain s = true -> break_free s = true.
Proof. by intros [Hb _]%andb_prop. Qed.

Lemma slice_inner {A} (first : A) (inner : list A) (last : A) :
  slice (first :: inner ++ [last]) 1 (-1) = inner.
Proof.
  unfold slice, clamp. cbn [length Z.ltb Z.compare].
  rewrite length_app. cbn [length].
  replace (Z.to_nat (-1 + Z.of_nat (S (length inner + 1))))
    with (S (length inner)) by lia.
  replace (Nat.min (S (length inner + 1)) (Z.to_nat 1)) with 1 by lia.
  cbn [drop]. replace (S (length inner) - 1) with (length inner) by lia.
  rewrite drop_0. by rewrite take_app_length.
Qed.

Lemma slice_inner_length {A} (l : list A) :
  length (slice l 1 (-1)) = length l - 2.
Proof.
  unfold slice, clamp. cbn [Z.ltb Z.compare].
  rewrite length_take, length_drop. lia.
Qed.
(** *** The boundaries of more than one byte *)

Example splitlines_separators :
  splitlines ("A" +:+ line_separator +:+ "B" +:+ paragraph_separator
              +:+ "C" +:+ next_line +:+ "D")
  = ["A"; "B"; "C"; "D"].
Proof. reflexivity. Qed.

(** The letter U+00C5, bytes 195 133, is no boundary. *)
Example splitlines_letter :
  splitlines ("A" +:+ String "195" (String "133" "") +:+ "B")
  = ["A" +:+ String "195" (String "133" "") +:+ "B"].
Proof. reflexivity. Qed.

Example separated_directory_lines :
  slice (splitlines separated_directory) 1 (-1)
  = [row_line ("A", "b", "c"); row_line ("D", "e", "f")].
Proof. reflexivity. Qed.

Example split_name_directory_lines :
  slice (splitlines split_name_directory) 1 (-1)
  = ["News"; row_line ("Desk", "l", "n.onion")].
Proof. reflexivity. Qed.
End LinesFacts.

(** ** [read_directory] *)

Section DirectoryFacts.
Context {W : Type} `{Host W}.
Implicit Types (ss : session W).

Lemma break_free_tab x : break_free (String tab x) = break_free x.
Proof. reflexivity. Qed.

Lemma row_line_break_free row :
  plain_row row = true -> break_free (row_line row) = true.
Proof.
  unfold plain_row, row_line.
  intros [[Ha Hb]%andb_prop Hc]%andb_prop.
  apply plain_break_free in Ha, Hb, Hc.
  apply break_free_app_low; [done..|]. rewrite break_free_tab.
  apply break_free_app_low; [done..|]. by rewrite break_free_tab.
Qed.

Lemma entry_of_row row :
  plain_row row = true -> entry_of_line (row_line row) = Ok (row_entry row).
Proof.
  unfold plain_row, row_line, entry_of_line.
  intros [[Ha Hb]%andb_prop Hc]%andb_prop.
  apply plain_no_tab in Ha, Hb, Hc.
  rewrite split_on_field, split_on_field, split_on_plain by done.
  by rewrite !append_nil.
Qed.

Lemma entry_of_line_short line :
  count_char tab line < 2 -> entry_of_line line = Raised IndexError.
Proof.
  intros Hc. unfold entry_of_line.
  pose proof (split_on_length tab "" line) as Hlen.
  destruct (Lines.split_on tab "" line !! 0) as [a|]; [|done].
  destruct (Lines.split_on tab "" line !! 1) as [b|]; [|done].
  rewrite (lookup_ge_None_2 _ 2) by lia. done.
Qed.

Lemma entry_of_line_Ok line entry :
  entry_of_line line = Ok entry ->
  exists a b c, entry = directory_entry a b c.
Proof.
  unfold entry_of_line.
  destruct (_ !! 0) as [a|]; [|done]. destruct (_ !! 1) as [b|]; [|done].
  destruct (_ !! 2) as [c|]; [|done]. intros [= <-]. by exists a, b, c.
Qed.

Lemma entry_of_line_Raised line e : entry_of_line line = Raised e -> e = IndexError.
Proof.
  unfold entry_of_line.
  destruct (_ !! 0) as [a|]; [|by intros [= <-]].
  destruct (_ !! 1) as [b|]; [|by intros [= <-]].
  destruct (_ !! 2) as [c|]; [done|by intros [= <-]].
Qed.

Lemma append_entries_rows rows acc :
  Forall (fun row => plain_row row = true) rows ->
  append_entries (map row_line rows) acc = Ok (acc ++ map row_entry rows).
Proof.
  intros Hrows. revert acc. induction Hrows as [|row rows Hrow _ IH]; intros acc.
  - by rewrite app_nil_r.
  - cbn [map append_entries]. rewrite (entry_of_row _ Hrow), IH.
    by rewrite <- app_assoc.
Qed.

Lemma append_entries_short lines acc line :
  line ∈ lines -> count_char tab line < 2 ->
  append_entries lines acc = Raised IndexError.
Proof.
  intros Hin Hshort. revert acc.
  induction lines as [|l lines IH]; intros acc; [by apply elem_of_nil in Hin|].
  cbn [append_entries]. destruct (entry_of_line l) as [entry|e] eqn:He.
  - apply elem_of_cons in Hin as [->|Hin]; [|by apply IH].
    by rewrite (entry_of_line_short _ Hshort) in He.
  - by rewrite (entry_of_line_Raised _ _ He).
Qed.

Lemma append_entries_Ok lines acc out :
  append_entries lines acc = Ok out ->
  exists entries,
    out = acc ++ entries
    /\ length entries = length lines
    /\ Forall (fun entry => exists a b c, entry = directory_entry a b c) entries.
Proof.
  revert acc. induction lines as [|l lines IH]; intros acc.
  - intros [= <-]. exists []. by rewrite app_nil_r.
  - cbn [append_entries]. destruct (entry_of_line l) as [entry|e] eqn:He; [|done].
    intros (entries & -> & Hlen & Hall)%IH.
    exists (entry :: entries). rewrite <- app_assoc. split; [done|].
    split; [by rewrite !length_cons, Hlen|].
    constructor; [by eapply entry_of_line_Ok|done].
Qed.

Lemma read_directory_unfold url ss directory w :
  urlopen_read url user_agent (host ss) = (Ok directory, w) ->
  read_directory url ss =
    (parse_directory directory,
     Session w (journal ss ++ [AUrlopen url user_agent (Ok directory)])).
Proof.
  intros Hurl. unfold read_directory, sbind, call. rewrite Hurl.
  by destruct (parse_directory directory).
Qed.

Lemma parse_directory_rows eol tail header rows last :
  eol = String Lines.lf "" \/ eol = String Lines.cr (String Lines.lf "") ->
  tail = eol \/ (tail = "" /\ last <> "") ->
  break_free header = true ->
  Forall (fun row => plain_row row = true) rows ->
  break_free last = true ->
  parse_directory (join_lines eol (header :: map row_line rows) +:+ last +:+ tail)
  = Ok (map row_entry rows).
Proof.
  intros Heol Htail Hheader Hrows Hlast. unfold parse_directory.
  rewrite splitlines_join; [|done| |done..].
  - cbn [app]. rewrite slice_inner. by rewrite append_entries_rows.
  - constructor; [done|]. apply Forall_fmap.
    eapply Forall_impl; [exact Hrows|]. intros row. apply row_line_break_free.
Qed.

(** X1: for a directory text made of a first line, one line of three
    tab-separated fields per entry and a last line, each followed by LF
    or by CR LF, [read_directory] returns the entries in order, one record
    per line, and drops the first and the last line whatever they hold;
    it does the same when the last line is not empty and nothing follows
    it.  No line holds a line boundary of [str.splitlines] -- LF, VT, FF,
    CR, FS, GS, RS, U+0085, U+2028 or U+2029 -- and no field holds a
    tab. *)
Theorem read_directory_entries url ss w eol tail header rows last :
  eol = String Lines.lf "" \/ eol = String Lines.cr (String Lines.lf "") ->
  tail = eol \/ (tail = "" /\ last <> "") ->
  break_free header = true ->
  Forall (fun row => plain_row row = true) rows ->
  break_free last = true ->
  let directory := join_lines eol (header :: map row_line rows) +:+ last +:+ tail in
  urlopen_read url user_agent (host ss) = (Ok directory, w) ->
  read_directory url ss =
    (Ok (map row_entry rows),
     Session w (journal ss ++ [AUrlopen url user_agent (Ok directory)])).
Proof.
  intros Heol Htail Hheader Hrows Hlast directory Hurl.
  rewrite (read_directory_unfold _ _ _ _ Hurl). f_equal.
  by apply parse_directory_rows.
Qed.

(** X2: when one of the lines between the first and the last has fewer
    than three tab-separated fields, [read_directory] raises [IndexError]
    and returns no record at all. *)
Theorem read_directory_short_line url ss w eol tail header inner last line :
  eol = String Lines.lf "" \/ eol = String Lines.cr (String Lines.lf "") ->
  tail = "" \/ tail = eol ->
  break_free header = true ->
  Forall (fun l => break_free l = true) inner ->
  break_free last = true -> last <> "" ->
  line ∈ inner -> count_char tab line < 2 ->
  let directory := join_lines eol (header :: inner) +:+ last +:+ tail in
  urlopen_read url user_agent (host ss) = (Ok directory, w) ->
  read_directory url ss =
    (Raised IndexError,
     Session w (journal ss ++ [AUrlopen url user_agent (Ok directory)])).
Proof.
  intros Heol Htail Hheader Hinner Hlast Hne Hin Hshort directory Hurl.
  rewrite (read_directory_unfold _ _ _ _ Hurl). f_equal.
  unfold parse_directory, directory.
  rewrite splitlines_join; [|done|by constructor|done|].
  - cbn [app]. rewrite slice_inner. by eapply append_entries_short.
  - destruct Htail as [Ht|Ht]; rewrite Ht; auto.
Qed.

(** X3: what [read_directory] returns has one record for each line of the
    text but the first and the last (none for a text of two lines or less),
    the lines being those of [str.splitlines], boundaries of several bytes
    included, and each record has the three keys [organization],
    [landing_page] and [ths_address], holding strings, and no other key. *)
Theorem read_directory_shape url ss directory w out ss' :
  urlopen_read url user_agent (host ss) = (Ok directory, w) ->
  read_directory url ss = (Ok out, ss') ->
  length out = length (Lines.splitlines directory) - 2
  /\ Forall (fun inst =>
               (exists a b c, inst = directory_entry a b c)
               /\ forall k, is_Some (inst !! k)
                            <-> k ∈ ["organization"; "landing_page"; "ths_address"])
            out.
Proof.
  intros Hurl. rewrite (read_directory_unfold _ _ _ _ Hurl). intros [= Hparse _].
  unfold parse_directory in Hparse.
  apply append_entries_Ok in Hparse as (entries & -> & Hlen & Hall).
  cbn [app]. split; [by rewrite Hlen, slice_inner_length|].
  eapply Forall_impl; [exact Hall|]. intros inst (a & b & c & ->).
  split; [by exists a, b, c|]. intros k. unfold directory_entry.
  rewrite !elem_of_cons, elem_of_nil. split.
  - intros [v Hv].
    apply lookup_insert_Some in Hv as [[<- _]|[_ Hv]]; [auto|].
    apply lookup_insert_Some in Hv as [[<- _]|[_ Hv]]; [auto|].
    apply lookup_singleton_Some in Hv as [<- _]. auto.
  - intros [->|[->|[->|[]]]]; by eexists.
Qed.
End DirectoryFacts.

(** ** [check_instances]: what is not absorbed, and what is logged *)

Section MonitorExtras.
Context {W : Type} `{Backend W}.
Implicit Types (s : state W).

Lemma check_instances_aborts t s i e s2 :
  (for_each (check_instance t) (seq 0 i) s).1 = Ok tt ->
  i < length (instances s) ->
  check_instance t i (for_each (check_instance t) (seq 0 i) s).2 = (Raised e, s2) ->
  check_instances t s = (Raised e, s2).
Proof.
  intros Hpre Hlt Hstep. rewrite check_instances_unfold.
  replace (length (instances s)) with (i + S (length (instances s) - S i)) by lia.
  rewrite seq_app, for_each_app. unfold bind at 1.
  destruct (for_each (check_instance t) (seq 0 i) s) as [[[]|e'] s1]; [|done].
  cbn [snd] in Hstep. cbn [seq for_each plus]. unfold bind. by rewrite Hstep.
Qed.

Lemma for_each_prefix_lookup t s i inst :
  instances s !! i = Some inst ->
  instances (for_each (check_instance t) (seq 0 i) s).2 !! i = Some inst.
Proof.
  intros <-. apply for_each_untouched. rewrite elem_of_seq. lia.
Qed.

(** X4: a probe that fails with an exception of another class than the
    three the handler names is not absorbed: [check_instances] raises it,
    the record keeps no [version], no descriptor is asked for, and the
    list stays as it stood when the probe began. *)
Theorem other_probe_error_propagates t s i inst address e w :
  (for_each (check_instance t) (seq 0 i) s).1 = Ok tt ->
  let s1 := (for_each (check_instance t) (seq 0 i) s).2 in
  instances s !! i = Some inst ->
  inst !! "ths_address" = Some (VStr address) ->
  open_url ("http://" +:+ address) t (world s1) = (Raised e, w) ->
  proxy_failure e = false ->
  check_instances t s =
    (Raised e,
     State w (instances s1)
           (trace s1 ++ [EvOpen ("http://" +:+ address) t (Raised e)])).
Proof.
  intros Hpre s1 Hi Ha Ho He.
  apply (check_instances_aborts t s i); [done|by eapply lookup_lt_Some|].
  apply (check_instance_probe_error t i _ inst address e w);
    [by apply for_each_prefix_lookup|done..].
Qed.

(** X5: a record without a string under [ths_address] makes
    [check_instances] raise [TypeError] before any call is made for it;
    nothing is written to the record. *)
Theorem missing_address_raises t s i inst :
  (for_each (check_instance t) (seq 0 i) s).1 = Ok tt ->
  instances s !! i = Some inst ->
  (forall a, inst !! "ths_address" <> Some (VStr a)) ->
  check_instances t s
  = (Raised TypeError, (for_each (check_instance t) (seq 0 i) s).2).
Proof.
  intros Hpre Hi Ha.
  apply (check_instances_aborts t s i); [done|by eapply lookup_lt_Some|].
  apply (check_instance_no_address t i _ inst); [by apply for_each_prefix_lookup|done].
Qed.

(** X6: when the descriptor fetch fails with another exception than
    [DescriptorUnavailable], [check_instances] raises it: the record is
    left with [version] set to ["unreachable"], it gets no [intro_pts], it
    is not printed and no circuit is collected. *)
Theorem other_descriptor_error_propagates t s i inst address e w1 e' w2 :
  (for_each (check_instance t) (seq 0 i) s).1 = Ok tt ->
  let s1 := (for_each (check_instance t) (seq 0 i) s).2 in
  instances s !! i = Some inst ->
  inst !! "ths_address" = Some (VStr address) ->
  open_url ("http://" +:+ address) t (world s1) = (Raised e, w1) ->
  proxy_failure e = true ->
  get_hidden_service_descriptor address w1 = (Raised e', w2) ->
  descriptor_failure e' = false ->
  check_instances t s =
    (Raised e',
     State w2 (<[i := <["version" := unreachable]> inst]> (instances s1))
       (trace s1 ++ [EvOpen ("http://" +:+ address) t (Raised e);
                     EvSet i "version" unreachable;
                     EvGetDescriptor address (Raised e')]))
  /\ (<["version" := unreachable]> inst) !! "intro_pts" = inst !! "intro_pts".
Proof.
  intros Hpre s1 Hi Ha Ho He Hd He'. split; [|by rewrite lookup_insert_ne].
  apply (check_instances_aborts t s i); [done|by eapply lookup_lt_Some|].
  apply (check_instance_descriptor_error t i _ inst address e w1 e' w2);
    [by apply for_each_prefix_lookup|done..].
Qed.

(** *** A close that fails *)

(** X7: when [close_circuit] fails on a circuit, the collection stops
    there with that exception: the circuits after it are neither recorded
    nor closed, and the snapshots taken so far are dropped -- the record
    gets neither [intro_circs] nor [rend_circs]. *)
Theorem failing_close_aborts_collection i s l1 c l2 w1 w e w' :
  get_circuits (world s) = (Ok (l1 ++ c :: l2), w1) ->
  close_all l1 w1 = Some w ->
  close_circuit (circ_id c) w = (Raised e, w') ->
  collect_circuits i s =
    (Raised e,
     State w' (instances s)
       (trace s ++ [EvGetCircuits (Ok (l1 ++ c :: l2))] ++ close_events l1
          ++ [EvCloseCircuit (circ_id c) (Raised e)])).
Proof.
  intros Hg Hl1 Hc. unfold collect_circuits. unfold bind at 1.
  unfold call_get_circuits. rewrite Hg. unfold bind at 1.
  rewrite (collect_fails l1 c l2 ([], []) _ w e w'); [|done..].
  cbn [world instances trace]. by rewrite <- app_assoc.
Qed.
End MonitorExtras.

(** ** [check_instances]: the history of a completed run *)

Section HistoryFacts.
Context {W : Type} `{Backend W}.
Implicit Types (s : state W).

Lemma collect_Ok_inv cs acc s acc' s' :
  collect cs acc s = (Ok acc', s') -> close_all cs (world s) = Some (world s').
Proof.
  revert acc s. induction cs as [|c cs IH]; intros acc s.
  - by intros [= _ <-].
  - cbn [collect close_all]. unfold bind at 1. unfold inspect.
    unfold bind at 1. unfold call_close_circuit.
    destruct (close_circuit (circ_id c) (world s)) as [[[]|e] w1]; [|done].
    unfold ret at 1. intros Hrest. by apply IH in Hrest.
Qed.

Lemma collect_circuits_Ok_inv i s s' :
  collect_circuits i s = (Ok tt, s') ->
  exists cs w1 w2,
    get_circuits (world s) = (Ok cs, w1) /\ close_all cs w1 = Some w2.
Proof.
  unfold collect_circuits. unfold bind at 1. unfold call_get_circuits.
  destruct (get_circuits (world s)) as [[cs|e] w1]; [|done].
  unfold bind at 1.
  destruct (collect cs ([], []) _) as [[acc|e] s1] eqn:Hc; [|done].
  intros _. apply collect_Ok_inv in Hc. by exists cs, w1, (world s1).
Qed.

Lemma printed_close_events cs : printed (close_events cs) = [].
Proof. by induction cs. Qed.

Lemma probes_close_events cs : probes (close_events cs) = [].
Proof. by induction cs. Qed.

Lemma printed_app l1 l2 : printed (l1 ++ l2) = printed l1 ++ printed l2.
Proof. apply omap_app. Qed.

Lemma probes_app l1 l2 : probes (l1 ++ l2) = probes l1 ++ probes l2.
Proof. apply omap_app. Qed.

Lemma printed_cons ev l : printed (ev :: l) = printed [ev] ++ printed l.
Proof. by destruct ev. Qed.

Lemma probes_cons ev l : probes (ev :: l) = probes [ev] ++ probes l.
Proof. by destruct ev. Qed.

Lemma class_is_reachable v :
  Text.all_class v = true -> is_unreachable (VStr v) = false.
Proof.
  intros Hv. cbn [is_unreachable]. apply String.eqb_neq.
  by apply class_not_unreachable.
Qed.

(** What a completed step leaves in the history: one probe, to the address
    of the record, and the record itself when it ends as unreachable. *)
Lemma check_instance_summary t i s s' inst :
  instances s !! i = Some inst ->
  check_instance t i s = (Ok tt, s') ->
  exists tl inst' address,
    trace s' = trace s ++ tl
    /\ instances s' !! i = Some inst'
    /\ inst' !! "ths_address" = Some (VStr address)
    /\ probes tl = [("http://" +:+ address, t)]
    /\ printed tl = if is_unreachable_record inst' then [inst'] else [].
Proof.
  intros Hi Hrun.
  assert (Hlt : i < length (instances s)) by (by eapply lookup_lt_Some).
  destruct (inst !! "ths_address") as [[address|l]|] eqn:Ha;
    [|rewrite (check_instance_no_address t i s inst) in Hrun by congruence; done..].
  destruct (open_url ("http://" +:+ address) t (world s)) as [[body|e] w1] eqn:Ho.
  - destruct (Text.search body) as [m|] eqn:Hs;
      [|by rewrite (check_instance_malformed _ _ _ _ _ _ _ Hi Ha Ho Hs) in Hrun].
    destruct (search_Some _ _ Hs) as (pre & rest & _ & Hm).
    destruct (match_here_Some _ _ Hm) as (run & post & _ & -> & Hne & Hrun' & _).
    pose proof (last_split_match run Hne Hrun') as Hl.
    rewrite (check_instance_version _ _ _ _ _ _ _ _ _ Hi Ha Ho Hs Hl) in Hrun.
    destruct (collect_circuits_Ok_inv _ _ _ Hrun) as (cs & w2 & w3 & Hg & Hc).
    erewrite (collect_circuits_spec i _ _ (VStr (Text.drop_last run)) cs w2 w3)
      in Hrun; [|by apply list_lookup_insert_eq|by apply lookup_insert_eq|done..].
    rewrite class_is_reachable in Hrun by (by apply drop_last_class).
    injection Hrun as <-. cbn [instances trace].
    eexists _, _, address. split; [by rewrite <- app_assoc|].
    split; [by rewrite list_insert_insert_eq, list_lookup_insert_eq|].
    split; [by rewrite !lookup_insert_ne|].
    unfold is_unreachable_record.
    rewrite !probes_app, !printed_app.
    rewrite (probes_cons (EvGetCircuits _)), (printed_cons (EvGetCircuits _)).
    rewrite !probes_app, !printed_app, probes_close_events, printed_close_events.
    rewrite lookup_insert_ne, lookup_insert_ne, lookup_insert_eq by done.
    by rewrite class_is_reachable by (by apply drop_last_class).
  - destruct (proxy_failure e) eqn:He;
      [|by rewrite (check_instance_probe_error _ _ _ _ _ _ _ Hi Ha Ho He) in Hrun].
    destruct (get_hidden_service_descriptor address w1) as [[content|e'] w2] eqn:Hd.
    + rewrite (check_instance_descriptor _ _ _ _ _ _ _ _ _ Hi Ha Ho He Hd) in Hrun.
      destruct (collect_circuits_Ok_inv _ _ _ Hrun) as (cs & w3 & w4 & Hg & Hc).
      erewrite (collect_circuits_spec i _ _ unreachable cs w3 w4)
        in Hrun; [|by apply list_lookup_insert_eq
                  |by rewrite lookup_insert_ne, lookup_insert_eq|done..].
      change (is_unreachable unreachable) with true in Hrun. cbv iota in Hrun.
      injection Hrun as <-. cbn [instances trace].
      eexists _, _, address. split; [by rewrite <- app_assoc|].
      split; [by rewrite list_insert_insert_eq, list_lookup_insert_eq|].
      split; [by rewrite !lookup_insert_ne|].
      unfold is_unreachable_record.
      rewrite !probes_app, !printed_app.
    rewrite (probes_cons (EvGetCircuits _)), (printed_cons (EvGetCircuits _)).
    rewrite !probes_app, !printed_app, probes_close_events, printed_close_events.
      by rewrite lookup_insert_ne, lookup_insert_ne, lookup_insert_ne,
        lookup_insert_eq by done.
    + destruct (descriptor_failure e') eqn:He';
        [|by rewrite (check_instance_descriptor_error _ _ _ _ _ _ _ _ _ Hi Ha Ho He Hd He') in Hrun].
      destruct e'; try done.
      rewrite (check_instance_unavailable _ _ _ _ _ _ _ _ Hi Ha Ho He Hd) in Hrun.
      injection Hrun as <-. cbn [instances trace].
      eexists _, _, address. split; [done|].
      split; [by rewrite list_lookup_insert_eq|].
      split; [by rewrite !lookup_insert_ne|].
      unfold is_unreachable_record.
      by rewrite lookup_insert_ne, lookup_insert_eq by done.
Qed.

Lemma check_instance_in_range t i s s' :
  check_instance t i s = (Ok tt, s') -> is_Some (instances s !! i).
Proof.
  unfold check_instance. unfold bind at 1. unfold get_instance.
  destruct (instances s !! i); [by eexists|done].
Qed.

(** The history of a completed loop over the positions [j, j + k), seen
    through a projection [f] that a step fills with [g] of the record it
    leaves. *)
Lemma for_each_history {X} (f : list event -> list X) (g : instance -> list X)
    (Q : instance -> Prop) t :
  f [] = [] ->
  (forall l1 l2, f (l1 ++ l2) = f l1 ++ f l2) ->
  (forall i s s' inst,
      instances s !! i = Some inst ->
      check_instance t i s = (Ok tt, s') ->
      exists tl inst',
        trace s' = trace s ++ tl /\ instances s' !! i = Some inst'
        /\ f tl = g inst' /\ Q inst') ->
  forall k j s s',
    for_each (check_instance t) (seq j k) s = (Ok tt, s') ->
    exists tl,
      trace s' = trace s ++ tl
      /\ f tl = concat (map g (take k (drop j (instances s'))))
      /\ Forall Q (take k (drop j (instances s'))).
Proof.
  intros Hnil Happ Hstep. induction k as [|k IH]; intros j s s'.
  - intros [= <-]. exists []. by rewrite app_nil_r, Hnil.
  - cbn [seq for_each]. unfold bind.
    destruct (check_instance t j s) as [[[]|e] s1] eqn:Hj; [|done].
    intros Hrest.
    destruct (check_instance_in_range _ _ _ _ Hj) as [inst Hi].
    destruct (Hstep _ _ _ _ Hi Hj) as (tl1 & inst' & Ht1 & Hi' & Hf & HQ).
    destruct (IH _ _ _ Hrest) as (tl2 & Ht2 & Hf2 & HQ2).
    assert (Hfinal : instances s' !! j = Some inst').
    { rewrite <- Hi'. rewrite <- (for_each_untouched t (seq (S j) k) s1 j).
      - by rewrite Hrest.
      - rewrite elem_of_seq. lia. }
    exists (tl1 ++ tl2). rewrite Ht2, Ht1, app_assoc. split; [done|].
    rewrite (drop_S _ _ _ Hfinal). cbn [take map concat].
    rewrite Happ, Hf, Hf2. split; [done|]. by constructor.
Qed.

Lemma concat_filter {A} (p : A -> bool) (l : list A) :
  concat (map (fun x => if p x then [x] else []) l) = List.filter p l.
Proof.
  induction l as [|x l IH]; [done|]. cbn [map concat List.filter].
  rewrite IH. by destruct (p x).
Qed.

Lemma concat_singletons {A B} (h : A -> option B) (l : list A) :
  Forall (fun x => is_Some (h x)) l ->
  map Some (concat (map (fun x => option_list (h x)) l)) = map h l.
Proof.
  induction 1 as [|x l [y Hy] _ IH]; [done|]. cbn [map concat].
  rewrite Hy. change (option_list (Some y)) with [y]. cbn [app map].
  by rewrite IH.
Qed.

Lemma check_instances_history {X} (f : list event -> list X)
    (g : instance -> list X) (Q : instance -> Prop) t s out :
  f [] = [] ->
  (forall l1 l2, f (l1 ++ l2) = f l1 ++ f l2) ->
  (forall i s s' inst,
      instances s !! i = Some inst ->
      check_instance t i s = (Ok tt, s') ->
      exists tl inst',
        trace s' = trace s ++ tl /\ instances s' !! i = Some inst'
        /\ f tl = g inst' /\ Q inst') ->
  (check_instances t s).1 = Ok out ->
  exists tl,
    trace (check_instances t s).2 = trace s ++ tl
    /\ f tl = concat (map g out) /\ Forall Q out.
Proof.
  intros Hnil Happ Hstep. rewrite check_instances_unfold.
  destruct (for_each _ _ s) as [[[]|e] s'] eqn:Hrun; [|done].
  cbn [fst snd]. intros [= <-].
  destruct (for_each_history f g Q t Hnil Happ Hstep _ _ _ _ Hrun)
    as (tl & Ht & Hf & HQ).
  assert (Hlen : length (instances s') = length (instances s)).
  { rewrite <- (for_each_length t (seq 0 (length (instances s))) s).
    by rewrite Hrun. }
  rewrite drop_0, take_ge in Hf, HQ by lia. by exists tl.
Qed.

(** X8: in a completed run, the records printed are the records of the
    result whose [version] is ["unreachable"], in the order of the list
    and each as it stands in the result; a record with a version is never
    printed. *)
Theorem printed_are_the_unreachable t s out :
  (check_instances t s).1 = Ok out ->
  exists tl,
    trace (check_instances t s).2 = trace s ++ tl
    /\ printed tl = List.filter is_unreachable_record out.
Proof.
  intros Hrun.
  destruct (check_instances_history printed
              (fun inst => if is_unreachable_record inst then [inst] else [])
              (fun _ => True) t s out) as (tl & Ht & Hf & _);
    [done|apply printed_app| |done|].
  - intros i s0 s' inst Hi Hstep.
    destruct (check_instance_summary _ _ _ _ _ Hi Hstep)
      as (tl & inst' & a & Ht & Hi' & _ & _ & Hp).
    by exists tl, inst'.
  - exists tl. by rewrite Hf, concat_filter.
Qed.

(** X9: in a completed run there is exactly one probe for each record, in
    the order of the list, to ["http://"] followed by the record's
    [ths_address] and with the timeout given: nothing is probed twice. *)
Theorem one_probe_per_record t s out :
  (check_instances t s).1 = Ok out ->
  exists tl,
    trace (check_instances t s).2 = trace s ++ tl
    /\ map Some (probes tl) = map (probe_of t) out.
Proof.
  intros Hrun.
  destruct (check_instances_history probes
              (fun inst => option_list (probe_of t inst))
              (fun inst => is_Some (probe_of t inst)) t s out)
    as (tl & Ht & Hf & HQ); [done|apply probes_app| |done|].
  - intros i s0 s' inst Hi Hstep.
    destruct (check_instance_summary _ _ _ _ _ Hi Hstep)
      as (tl & inst' & a & Ht & Hi' & Ha & Hp & _).
    exists tl, inst'. unfold probe_of. rewrite Ha. by eauto.
  - exists tl. by rewrite Hf, concat_singletons.
Qed.
End HistoryFacts.

(** ** What the circuit collection never does *)

Section QuietFacts.
Context {W : Type} `{Backend W}.
Implicit Types (s : state W) (p : event -> bool).

Lemma adds_refl p s : adds p s s.
Proof. exists []. by rewrite app_nil_r. Qed.

Lemma adds_trans p s1 s2 s3 : adds p s1 s2 -> adds p s2 s3 -> adds p s1 s3.
Proof.
  intros (t1 & T1 & P1) (t2 & T2 & P2). exists (t1 ++ t2).
  rewrite T2, T1, app_assoc. split; [done|].
  by rewrite forallb_app, P1, P2.
Qed.

#[local] Instance adds_preorder p : PreOrder (adds (W:=W) p).
Proof. split; [intros s; apply adds_refl|intros ???; apply adds_trans]. Qed.

Lemma adds_log p s w ev :
  p ev = true -> adds p s (State w (instances s) (trace s ++ [ev])).
Proof. intros Hev. exists [ev]. cbn [forallb]. by rewrite Hev. Qed.

Lemma adds_setitem p i k v :
  (forall j key x, p (EvSet j key x) = true) ->
  preserves (W:=W) (adds p) (setitem i k v).
Proof. intros Hp s. exists [EvSet i k v]. cbn [forallb]. by rewrite Hp. Qed.

Lemma adds_get_instance p i : preserves (W:=W) (adds p) (get_instance i).
Proof.
  intros s. unfold get_instance. destruct (instances s !! i); apply adds_refl.
Qed.

Lemma adds_print p i :
  (forall r, p (EvPrint r) = true) -> preserves (W:=W) (adds p) (print i).
Proof.
  intros Hp s. unfold print, bind, get_instance.
  destruct (instances s !! i); [|apply adds_refl]. by apply adds_log.
Qed.

Lemma adds_call_get_circuits p :
  (forall r, p (EvGetCircuits r) = true) ->
  preserves (W:=W) (adds p) call_get_circuits.
Proof.
  intros Hp s. unfold call_get_circuits. destruct (get_circuits _).
  by apply adds_log.
Qed.

Lemma adds_call_close_circuit p id :
  (forall c r, p (EvCloseCircuit c r) = true) ->
  preserves (W:=W) (adds p) (call_close_circuit id).
Proof.
  intros Hp s. unfold call_close_circuit. destruct (close_circuit _ _).
  by apply adds_log.
Qed.

Lemma adds_collect p cs acc :
  (forall c r, p (EvCloseCircuit c r) = true) ->
  preserves (W:=W) (adds p) (collect cs acc).
Proof.
  intros Hp. revert acc. induction cs as [|c cs IH]; intros acc; cbn [collect].
  - apply preserves_ret; apply _.
  - apply preserves_bind; [apply _| |auto].
    unfold inspect. apply preserves_bind; [apply _| |].
    + by apply adds_call_close_circuit.
    + intros _. apply preserves_ret; apply _.
Qed.

(** The circuit collection makes no probe and asks for no descriptor. *)
Lemma adds_collect_circuits i :
  preserves (W:=W) (adds no_fetch) (collect_circuits i).
Proof.
  unfold collect_circuits.
  apply preserves_bind; [apply _|by apply adds_call_get_circuits|intros cs].
  apply preserves_bind; [apply _|by apply adds_collect|intros acc].
  apply preserves_bind; [apply _|by apply adds_setitem|intros _].
  apply preserves_bind; [apply _|by apply adds_setitem|intros _].
  apply preserves_bind; [apply _|apply adds_get_instance|intros inst].
  destruct (inst !! "version") as [v|]; [|apply preserves_raise; apply _].
  destruct (is_unreachable v); [by apply adds_print|apply preserves_ret; apply _].
Qed.

(** X10: when the probe is answered and the pattern is found, the checker
    never asks for the descriptor and never probes again, whatever the
    controller does afterwards: after the probe the history holds the
    [version] written and then only circuit calls, writes and prints. *)
Theorem reachable_never_fetches_descriptor t i s inst address body w m :
  instances s !! i = Some inst ->
  inst !! "ths_address" = Some (VStr address) ->
  open_url ("http://" +:+ address) t (world s) = (Ok body, w) ->
  Text.search body = Some m ->
  exists v tl,
    trace (check_instance t i s).2
    = trace s ++ [EvOpen ("http://" +:+ address) t (Ok body);
                  EvSet i "version" (VStr v)] ++ tl
    /\ forallb no_fetch tl = true
    /\ field_at (instances (check_instance t i s).2) i "version" = Some (VStr v).
Proof.
  intros Hi Ha Ho Hs.
  destruct (search_Some _ _ Hs) as (pre & rest & _ & Hm).
  destruct (match_here_Some _ _ Hm) as (run & post & _ & -> & Hne & Hrun & _).
  pose proof (last_split_match run Hne Hrun) as Hl.
  exists (Text.drop_last run).
  pose proof (recorded_version _ _ _ _ _ _ _ _ _ Hi Ha Ho Hs Hl) as Hv.
  rewrite (check_instance_version _ _ _ _ _ _ _ _ _ Hi Ha Ho Hs Hl) in *.
  destruct (adds_collect_circuits i
              (State w (<[i := <["version" := VStr (Text.drop_last run)]> inst]> (instances s))
                 (trace s ++ [EvOpen ("http://" +:+ address) t (Ok body);
                              EvSet i "version" (VStr (Text.drop_last run))])))
    as (tl & Ht & Hq).
  exists tl. rewrite Ht. cbn [trace]. by rewrite <- app_assoc.
Qed.
End QuietFacts.

(** ** The session *)

Section SessionFacts.
Context {W : Type} `{Backend W} `{Host W}.
Implicit Types (ss : session W).

Lemma sd_init_ok ss w1 w2 v w3 :
  from_port (host ss) = (Ok tt, w1) ->
  authenticate w1 = (Ok tt, w2) ->
  get_version w2 = (Ok v, w3) ->
  sd_init ss =
    (Ok tt,
     Session w3 (journal ss ++ [AFromPort (Ok tt); AAuthenticate (Ok tt);
                                AGetVersion (Ok v)])).
Proof.
  intros Hf Ha Hv. unfold sd_init, sbind, call, sret.
  rewrite Hf. cbn [host journal]. rewrite Ha. cbn [host journal]. rewrite Hv.
  by rewrite <- !app_assoc.
Qed.

Lemma run_check_unfold t l ss :
  run_check t l ss =
    ((check_instances t (State (host ss) l [])).1,
     Session (world (check_instances t (State (host ss) l [])).2)
       (journal ss ++ map ACheck (trace (check_instances t (State (host ss) l [])).2))).
Proof. unfold run_check. by destruct (check_instances _ _) as [r st]. Qed.

(** X11: when everything succeeds, the main block configures the log,
    connects, authenticates and asks for the version, downloads the
    directory, checks the records it read with a timeout of 30, closes the
    controller once, and only then dumps the list [check_instances]
    returned to the results file named after the time stamp. *)
Theorem main_success stamp ss w1 w2 w3 v w4 l ss5 out w6 :
  basic_config (log_name stamp) (host ss) = (Ok tt, w1) ->
  from_port w1 = (Ok tt, w2) ->
  authenticate w2 = (Ok tt, w3) ->
  get_version w3 = (Ok v, w4) ->
  let ss4 := Session w4 (journal ss ++ [ABasicConfig (log_name stamp) (Ok tt);
                                         AFromPort (Ok tt); AAuthenticate (Ok tt);
                                         AGetVersion (Ok v)]) in
  read_directory directory_url ss4 = (Ok l, ss5) ->
  let st := (check_instances 30 (State (host ss5) l [])).2 in
  (check_instances 30 (State (host ss5) l [])).1 = Ok out ->
  controller_close (world st) = (Ok tt, w6) ->
  main stamp ss =
    ((dump (results_name stamp) out w6).1,
     Session (dump (results_name stamp) out w6).2
       (journal ss5 ++ map ACheck (trace st)
          ++ [AClose (Ok tt);
              ADump (results_name stamp) out (dump (results_name stamp) out w6).1])).
Proof.
  intros Hcfg Hfp Hauth Hver ss4 Hread st Hcheck Hclose.
  unfold main. fold (log_name stamp). fold (results_name stamp).
  unfold sbind at 1. unfold call at 1. rewrite Hcfg.
  unfold sbind at 1. unfold with_monitor. unfold sbind at 1.
  erewrite sd_init_ok; [|exact Hfp|exact Hauth|exact Hver].
  cbn [journal]. rewrite <- app_assoc. cbn [app]. fold ss4.
  unfold sbind at 1. rewrite Hread. rewrite run_check_unfold. fold st.
  rewrite Hcheck. unfold sd_exit, call. cbn [host journal]. rewrite Hclose.
  cbn [host journal].
  destruct (dump (results_name stamp) out w6) as [rd w7]. cbn [fst snd].
  by rewrite <- !app_assoc.
Qed.

(** X12: when [check_instances] raises, the controller is still closed,
    once, and the main block raises without dumping anything: no results
    file is written, not even for the records completed before.  (The
    exception is that of [check_instances], unless the close itself
    fails.) *)
Theorem main_check_failure stamp ss w1 w2 w3 v w4 l ss5 e :
  basic_config (log_name stamp) (host ss) = (Ok tt, w1) ->
  from_port w1 = (Ok tt, w2) ->
  authenticate w2 = (Ok tt, w3) ->
  get_version w3 = (Ok v, w4) ->
  let ss4 := Session w4 (journal ss ++ [ABasicConfig (log_name stamp) (Ok tt);
                                         AFromPort (Ok tt); AAuthenticate (Ok tt);
                                         AGetVersion (Ok v)]) in
  read_directory directory_url ss4 = (Ok l, ss5) ->
  let st := (check_instances 30 (State (host ss5) l [])).2 in
  (check_instances 30 (State (host ss5) l [])).1 = Raised e ->
  let rc := (controller_close (world st)).1 in
  main stamp ss =
    (Raised (match rc with Ok _ => e | Raised e' => e' end),
     Session (controller_close (world st)).2
       (journal ss5 ++ map ACheck (trace st) ++ [AClose rc])).
Proof.
  intros Hcfg Hfp Hauth Hver ss4 Hread st Hcheck rc. subst rc.
  unfold main. fold (log_name stamp). fold (results_name stamp).
  unfold sbind at 1. unfold call at 1. rewrite Hcfg.
  unfold sbind at 1. unfold with_monitor. unfold sbind at 1.
  erewrite sd_init_ok; [|exact Hfp|exact Hauth|exact Hver].
  cbn [journal]. rewrite <- app_assoc. cbn [app]. fold ss4.
  unfold sbind at 1. rewrite Hread. rewrite run_check_unfold. fold st.
  rewrite Hcheck. unfold sd_exit, call. cbn [host journal].
  destruct (controller_close (world st)) as [[[]|e'] w6]; cbn [fst snd];
    by rewrite <- !app_assoc.
Qed.

(** X13: when the directory cannot be read -- the download fails, or a
    line is too short -- no record is checked: the controller is closed
    and the main block raises without dumping anything. *)
Theorem main_directory_failure stamp ss w1 w2 w3 v w4 e ss5 :
  basic_config (log_name stamp) (host ss) = (Ok tt, w1) ->
  from_port w1 = (Ok tt, w2) ->
  authenticate w2 = (Ok tt, w3) ->
  get_version w3 = (Ok v, w4) ->
  let ss4 := Session w4 (journal ss ++ [ABasicConfig (log_name stamp) (Ok tt);
                                         AFromPort (Ok tt); AAuthenticate (Ok tt);
                                         AGetVersion (Ok v)]) in
  read_directory directory_url ss4 = (Raised e, ss5) ->
  let rc := (controller_close (host ss5)).1 in
  main stamp ss =
    (Raised (match rc with Ok _ => e | Raised e' => e' end),
     Session (controller_close (host ss5)).2 (journal ss5 ++ [AClose rc])).
Proof.
  intros Hcfg Hfp Hauth Hver ss4 Hread rc. subst rc.
  unfold main. fold (log_name stamp). fold (results_name stamp).
  unfold sbind at 1. unfold call at 1. rewrite Hcfg.
  unfold sbind at 1. unfold with_monitor. unfold sbind at 1.
  erewrite sd_init_ok; [|exact Hfp|exact Hauth|exact Hver].
  cbn [journal]. rewrite <- app_assoc. cbn [app]. fold ss4.
  unfold sbind at 1. rewrite Hread. unfold sd_exit, call.
  by destruct (controller_close (host ss5)) as [[[]|e'] w6].
Qed.

(** X14: when the authentication fails, the main block raises at once:
    [__exit__] is not reached, so the controller that [from_port] opened
    is not closed, and nothing is downloaded, checked or dumped. *)
Theorem main_authentication_failure stamp ss w1 w2 e w3 :
  basic_config (log_name stamp) (host ss) = (Ok tt, w1) ->
  from_port w1 = (Ok tt, w2) ->
  authenticate w2 = (Raised e, w3) ->
  main stamp ss =
    (Raised e,
     Session w3 (journal ss ++ [ABasicConfig (log_name stamp) (Ok tt);
                                AFromPort (Ok tt); AAuthenticate (Raised e)])).
Proof.
  intros Hcfg Hfp Hauth.
  unfold main. fold (log_name stamp). fold (results_name stamp).
  unfold sbind at 1. unfold call at 1. rewrite Hcfg.
  unfold sbind at 1. unfold with_monitor. unfold sbind at 1.
  unfold sd_init. unfold sbind at 1. unfold call at 1. cbn [host journal].
  rewrite Hfp. unfold sbind at 1. unfold call at 1. cbn [host journal].
  rewrite Hauth. by rewrite <- !app_assoc.
Qed.
End SessionFacts.

(** ** From the directory to the result *)

Section EndToEnd.
Context {W : Type} `{Backend W}.

(** X15: the records [read_directory] builds go through a completed
    [check_instances] with their [organization], [landing_page] and
    [ths_address] as read, in the same order and number, and each ends
    with [intro_pts] present exactly when its [version] is
    ["unreachable"]. *)
Theorem directory_records_checked t (w : W) directory l out :
  parse_directory directory = Ok l ->
  (check_instances t (State w l [])).1 = Ok out ->
  length out = length l
  /\ forall i, i < length l ->
       (exists a b c,
           l !! i = Some (directory_entry a b c)
           /\ field_at out i "organization" = Some (VStr a)
           /\ field_at out i "landing_page" = Some (VStr b)
           /\ field_at out i "ths_address" = Some (VStr c))
       /\ (is_Some (field_at out i "intro_pts")
           <-> field_at out i "version" = Some unreachable).
Proof.
  intros Hparse Hrun. unfold parse_directory in Hparse.
  apply append_entries_Ok in Hparse as (entries & -> & _ & Hall).
  cbn [app] in *. set (s := State w entries []) in *.
  pose proof (preserves_for_each t (seq 0 (length (instances s))) s) as (L & F & _).
  assert (Hout : out = instances (for_each (check_instance t)
                                    (seq 0 (length (instances s))) s).2).
  { rewrite check_instances_unfold in Hrun.
    destruct (for_each _ _ s) as [[[]|e] s']; [|done]. by injection Hrun as <-. }
  split; [by rewrite Hout, L|]. intros i Hlt.
  destruct (lookup_lt_is_Some_2 entries i Hlt) as [inst Hi].
  destruct (proj1 (Forall_lookup _ _) Hall i inst Hi) as (a & b & c & ->).
  split.
  - exists a, b, c. split; [done|]. rewrite Hout, !F.
    + unfold field_at. cbn [instances s]. rewrite Hi. cbn.
      unfold directory_entry.
      by rewrite lookup_insert_eq, lookup_insert_ne, lookup_insert_eq,
        !lookup_insert_ne, lookup_singleton_eq by done.
    + unfold result_keys. rewrite !not_elem_of_cons. repeat split; try done.
      apply not_elem_of_nil.
    + unfold result_keys. rewrite !not_elem_of_cons. repeat split; try done.
      apply not_elem_of_nil.
    + unfold result_keys. rewrite !not_elem_of_cons. repeat split; try done.
      apply not_elem_of_nil.
  - destruct (check_instances_completed t s out i Hrun Hlt)
      as (s1 & s2 & inst1 & H1 & H0' & Hstep & H2).
    cbn [instances s] in H0'. rewrite Hi in H0'. injection H0' as <-.
    unfold field_at. rewrite H2.
    destruct (check_instance_completed _ _ _ _ _ H1 Hstep)
      as [(v & Hv & Hver & Hip)|[Hver Hip]]; unfold field_at in Hver, Hip.
    + rewrite Hip, Hver. split.
      * intros [x Hx]. unfold directory_entry in Hx.
        by rewrite !lookup_insert_ne, lookup_singleton_ne in Hx.
      * intros [= ->]. by apply class_not_unreachable in Hv.
    + by rewrite Hver.
Qed.
End EndToEnd.

(** ** Instances of the statements *)

Lemma example_rows_plain : Forall (fun row => plain_row row = true) example_rows.
Proof. repeat constructor. Qed.

Lemma example_directory_parses :
  parse_directory example_directory = Ok (map row_entry example_rows).
Proof.
  apply (parse_directory_rows unix_eol unix_eol).
  - by left.
  - by left.
  - reflexivity.
  - exact example_rows_plain.
  - reflexivity.
Qed.

Lemma read_directory_entries_witness :
  read_directory directory_url (host_start [HText (Ok example_directory)]) =
    (Ok (map row_entry example_rows),
     Session []
       (journal (host_start [HText (Ok example_directory)])
        ++ [AUrlopen directory_url user_agent (Ok example_directory)])).
Proof.
  apply (read_directory_entries directory_url
           (host_start [HText (Ok example_directory)]) [] unix_eol unix_eol
           "SecureDrop directory" example_rows "-- end of list --").
  - by left.
  - by left.
  - reflexivity.
  - exact example_rows_plain.
  - reflexivity.
  - reflexivity.
Defined.

Lemma read_directory_short_line_witness :
  read_directory directory_url (host_start [HText (Ok broken_directory)]) =
    (Raised IndexError,
     Session []
       (journal (host_start [HText (Ok broken_directory)])
        ++ [AUrlopen directory_url user_agent (Ok broken_directory)])).
Proof.
  apply (read_directory_short_line directory_url
           (host_start [HText (Ok broken_directory)]) [] unix_eol unix_eol
           "SecureDrop directory"
           [row_line ("Example Press", "https://press.example/tips", "examplepress.onion");
            "Other Desk" +:+ String tab "otherdesk.onion"]
           "-- end of list --"
           ("Other Desk" +:+ String tab "otherdesk.onion")).
  - by left.
  - by right.
  - reflexivity.
  - repeat constructor.
  - reflexivity.
  - discriminate.
  - rewrite !elem_of_cons. auto.
  - vm_compute. lia.
  - reflexivity.
Defined.

Lemma read_directory_shape_witness :
  length (map row_entry example_rows)
  = length (Lines.splitlines example_directory) - 2
  /\ Forall (fun inst =>
               (exists a b c, inst = directory_entry a b c)
               /\ forall k, is_Some (inst !! k)
                            <-> k ∈ ["organization"; "landing_page"; "ths_address"])
            (map row_entry example_rows).
Proof.
  apply (read_directory_shape directory_url
           (host_start [HText (Ok example_directory)]) example_directory []
           (map row_entry example_rows)
           (Session [] [AUrlopen directory_url user_agent (Ok example_directory)])).
  - reflexivity.
  - erewrite read_directory_unfold by reflexivity.
    by rewrite example_directory_parses.
Defined.

Lemma other_probe_error_propagates_witness :
  let s1 := (for_each (check_instance 30) (seq 0 1) timeout_run).2 in
  check_instances 30 timeout_run =
    (Raised (OtherError "timeout"),
     State [] (instances s1)
       (trace s1 ++ [EvOpen ("http://" +:+ "otherdesk.onion") 30
                       (Raised (OtherError "timeout"))])).
Proof.
  apply (other_probe_error_propagates 30 timeout_run 1 other_entry "otherdesk.onion"
           (OtherError "timeout") []).
  - vm_compute. reflexivity.
  - reflexivity.
  - vm_compute. reflexivity.
  - vm_compute. reflexivity.
  - reflexivity.
Defined.

Lemma missing_address_raises_witness :
  check_instances 30 anonymous_run
  = (Raised TypeError, (for_each (check_instance 30) (seq 0 0) anonymous_run).2).
Proof.
  apply (missing_address_raises 30 anonymous_run 0 {[ "organization" := VStr "No Address" ]}).
  - reflexivity.
  - reflexivity.
  - intros a. vm_compute. discriminate.
Defined.

Lemma other_descriptor_error_propagates_witness :
  let s1 := (for_each (check_instance 30) (seq 0 0) controller_error_run).2 in
  check_instances 30 controller_error_run =
    (Raised (OtherError "ControllerError"),
     State [] (<[0 := <["version" := unreachable]> example_entry]> (instances s1))
       (trace s1 ++ [EvOpen ("http://" +:+ "examplepress.onion") 30 (Raised URLError);
                     EvSet 0 "version" unreachable;
                     EvGetDescriptor "examplepress.onion"
                       (Raised (OtherError "ControllerError"))]))
  /\ (<["version" := unreachable]> example_entry) !! "intro_pts"
     = example_entry !! "intro_pts".
Proof.
  apply (other_descriptor_error_propagates 30 controller_error_run 0 example_entry
           "examplepress.onion" URLError
           [RDescriptor (Raised (OtherError "ControllerError"))]
           (OtherError "ControllerError") []).
  - reflexivity.
  - reflexivity.
  - vm_compute. reflexivity.
  - reflexivity.
  - reflexivity.
  - reflexivity.
  - reflexivity.
Defined.

Lemma failing_close_aborts_collection_witness :
  collect_circuits 0 failing_close_run =
    (Raised (OtherError "InvalidRequest"),
     State [] (instances failing_close_run)
       (trace failing_close_run
        ++ [EvGetCircuits (Ok ([intro_circuit] ++ general_circuit :: [rend_circuit]))]
        ++ close_events [intro_circuit]
        ++ [EvCloseCircuit (circ_id general_circuit)
              (Raised (OtherError "InvalidRequest"))])).
Proof.
  apply (failing_close_aborts_collection 0 failing_close_run [intro_circuit]
           general_circuit [rend_circuit]
           [RClose (Ok tt); RClose (Raised (OtherError "InvalidRequest"))]
           [RClose (Raised (OtherError "InvalidRequest"))]
           (OtherError "InvalidRequest") []).
  - reflexivity.
  - reflexivity.
  - reflexivity.
Defined.

Lemma mixed_run_returns :
  (check_instances 30 mixed_run).1 = Ok (instances (check_instances 30 mixed_run).2).
Proof. apply check_instances_returns. vm_compute. reflexivity. Qed.

Lemma printed_are_the_unreachable_witness :
  exists tl,
    trace (check_instances 30 mixed_run).2 = trace mixed_run ++ tl
    /\ printed tl
       = List.filter is_unreachable_record (instances (check_instances 30 mixed_run).2).
Proof.
  apply (printed_are_the_unreachable 30 mixed_run). exact mixed_run_returns.
Defined.

Lemma one_probe_per_record_witness :
  exists tl,
    trace (check_instances 30 mixed_run).2 = trace mixed_run ++ tl
    /\ map Some (probes tl)
       = map (probe_of 30) (instances (check_instances 30 mixed_run).2).
Proof.
  apply (one_probe_per_record 30 mixed_run). exact mixed_run_returns.
Defined.

Lemma reachable_never_fetches_descriptor_witness :
  let s := answered_run "<p>Powered by SecureDrop 2.5.0.</p>" in
  exists v tl,
    trace (check_instance 30 0 s).2
    = trace s ++ [EvOpen ("http://" +:+ "examplepress.onion") 30
                    (Ok "<p>Powered by SecureDrop 2.5.0.</p>");
                  EvSet 0 "version" (VStr v)] ++ tl
    /\ forallb no_fetch tl = true
    /\ field_at (instances (check_instance 30 0 s).2) 0 "version" = Some (VStr v).
Proof.
  apply (reachable_never_fetches_descriptor 30 0
           (answered_run "<p>Powered by SecureDrop 2.5.0.</p>") example_entry
           "examplepress.onion" "<p>Powered by SecureDrop 2.5.0.</p>"
           [RCircuits (Ok [])] "Powered by SecureDrop 2.5.0.").
  - reflexivity.
  - vm_compute. reflexivity.
  - reflexivity.
  - vm_compute. reflexivity.
Defined.

Lemma main_success_witness :
  (main stamp_example (host_start good_session)).1 = Ok tt
  /\ exists done out,
       journal (main stamp_example (host_start good_session)).2
       = done ++ [AClose (Ok tt); ADump (results_name stamp_example) out (Ok tt)]
       /\ (check_instances 30
             (State (map HService mixed_replies ++ [HUnit (Ok tt); HUnit (Ok tt)])
                (map row_entry example_rows) [])).1 = Ok out.
Proof.
  set (ss5 := Session (map HService mixed_replies ++ [HUnit (Ok tt); HUnit (Ok tt)])
                ([ABasicConfig (log_name stamp_example) (Ok tt); AFromPort (Ok tt);
                  AAuthenticate (Ok tt); AGetVersion (Ok "0.4.8.12")]
                 ++ [AUrlopen directory_url user_agent (Ok example_directory)])).
  set (run := check_instances 30 (State (host ss5) (map row_entry example_rows) [])).
  assert (Hrun : run.1 = Ok (instances run.2)).
  { apply check_instances_returns. vm_compute. reflexivity. }
  assert (Hmain := main_success stamp_example (host_start good_session)
            (tl good_session) (tl (tl good_session)) (tl (tl (tl good_session)))
            "0.4.8.12" (tl (tl (tl (tl good_session))))
            (map row_entry example_rows) ss5 (instances run.2) [HUnit (Ok tt)]
            eq_refl eq_refl eq_refl eq_refl).
  cbv zeta in Hmain. rewrite Hmain.
  - split; [reflexivity|]. eexists _, _. split; [|exact Hrun].
    cbn [snd journal]. rewrite app_assoc. reflexivity.
  - erewrite read_directory_unfold by reflexivity.
    by rewrite example_directory_parses.
  - exact Hrun.
  - vm_compute. reflexivity.
Defined.

Lemma main_check_failure_witness :
  (main stamp_example (host_start malformed_session)).1 = Raised AttributeError
  /\ exists done,
       journal (main stamp_example (host_start malformed_session)).2
       = done ++ [AClose (Ok tt)].
Proof.
  set (ss5 := Session [HService (ROpen (Ok "<p>Powered by SecureDrop 2.5.0.</p>"));
                       HService (RCircuits (Ok []));
                       HService (ROpen (Ok "<html>502 Bad Gateway</html>"));
                       HUnit (Ok tt)]
                ([ABasicConfig (log_name stamp_example) (Ok tt); AFromPort (Ok tt);
                  AAuthenticate (Ok tt); AGetVersion (Ok "0.4.8.12")]
                 ++ [AUrlopen directory_url user_agent (Ok example_directory)])).
  set (run := check_instances 30 (State (host ss5) (map row_entry example_rows) [])).
  assert (Hrun : run.1 = Raised AttributeError) by (vm_compute; reflexivity).
  assert (Hclose : controller_close (world run.2) = (Ok tt, []))
    by (vm_compute; reflexivity).
  assert (Hmain := main_check_failure stamp_example (host_start malformed_session)
            (tl malformed_session) (tl (tl malformed_session))
            (tl (tl (tl malformed_session)))
            "0.4.8.12" (tl (tl (tl (tl malformed_session))))
            (map row_entry example_rows) ss5 AttributeError
            eq_refl eq_refl eq_refl eq_refl).
  cbv zeta in Hmain. rewrite Hmain.
  - fold run. rewrite Hclose. cbn [fst snd journal]. split; [reflexivity|].
    eexists. rewrite app_assoc. reflexivity.
  - erewrite read_directory_unfold by reflexivity.
    by rewrite example_directory_parses.
  - exact Hrun.
Defined.

Lemma broken_directory_fails :
  parse_directory broken_directory = Raised IndexError.
Proof.
  unfold parse_directory, broken_directory.
  rewrite splitlines_join; [|by left|repeat constructor|reflexivity|by left].
  rewrite <- app_comm_cons, slice_inner.
  apply (append_entries_short _ _ ("Other Desk" +:+ String tab "otherdesk.onion")).
  - rewrite !elem_of_cons. auto.
  - vm_compute. lia.
Qed.

Lemma main_directory_failure_witness :
  (main stamp_example (host_start broken_session)).1 = Raised IndexError
  /\ journal (main stamp_example (host_start broken_session)).2
     = [ABasicConfig (log_name stamp_example) (Ok tt); AFromPort (Ok tt);
        AAuthenticate (Ok tt); AGetVersion (Ok "0.4.8.12")]
       ++ [AUrlopen directory_url user_agent (Ok broken_directory)]
       ++ [AClose (Ok tt)].
Proof.
  set (ss5 := Session [HUnit (Ok tt)]
                ([ABasicConfig (log_name stamp_example) (Ok tt); AFromPort (Ok tt);
                  AAuthenticate (Ok tt); AGetVersion (Ok "0.4.8.12")]
                 ++ [AUrlopen directory_url user_agent (Ok broken_directory)])).
  assert (Hmain := main_directory_failure stamp_example (host_start broken_session)
            (tl broken_session) (tl (tl broken_session)) (tl (tl (tl broken_session)))
            "0.4.8.12" (tl (tl (tl (tl broken_session)))) IndexError ss5
            eq_refl eq_refl eq_refl eq_refl).
  cbv zeta in Hmain. rewrite Hmain.
  - split; [reflexivity|]. cbn [snd journal fst]. unfold ss5. cbn [journal host].
    by rewrite <- app_assoc.
  - erewrite read_directory_unfold by reflexivity.
    by rewrite broken_directory_fails.
Defined.

Lemma main_authentication_failure_witness :
  main stamp_example (host_start refused_session) =
    (Raised (OtherError "AuthenticationFailure"),
     Session []
       (journal (host_start refused_session)
        ++ [ABasicConfig (log_name stamp_example) (Ok tt); AFromPort (Ok tt);
            AAuthenticate (Raised (OtherError "AuthenticationFailure"))])).
Proof.
  apply (main_authentication_failure stamp_example (host_start refused_session)
           (tl refused_session) (tl (tl refused_session))
           (OtherError "AuthenticationFailure") []); reflexivity.
Defined.

Lemma directory_records_checked_witness :
  let run := check_instances 30 (State mixed_replies (map row_entry example_rows) []) in
  let out := instances run.2 in
  length out = length (map row_entry example_rows)
  /\ forall i, i < length (map row_entry example_rows) ->
       (exists a b c,
           map row_entry example_rows !! i = Some (directory_entry a b c)
           /\ field_at out i "organization" = Some (VStr a)
           /\ field_at out i "landing_page" = Some (VStr b)
           /\ field_at out i "ths_address" = Some (VStr c))
       /\ (is_Some (field_at out i "intro_pts")
           <-> field_at out i "version" = Some unreachable).
Proof.
  apply (directory_records_checked 30 mixed_replies example_directory).
  - exact example_directory_parses.
  - apply check_instances_returns. vm_compute. reflexivity.
Defined.
